(** * Storage layer of the offline notes application (src/js/storage.js)

    A shallow embedding of [StorageManager]: the IndexedDB backend (an
    object store keyed by [id] with a [folder] index) and the localStorage
    fallback (one JSON blob under the key [offline_notes]), the façade
    operations that dispatch between them, and export/import. *)

From Stdlib Require Import ZArith NArith Ascii String List Bool.
From stdpp Require Import base gmap strings list pretty.

Set Warnings "-register-all".

Local Open Scope string_scope.

(** ** JavaScript values

    The values a note field can hold.  Numbers are the integer ones; a JS
    array is [VArr].  Nested plain objects are not modelled as field
    values. *)
Inductive val :=
| VUndef
| VNull
| VBool (b : bool)
| VNum (z : Z)
| VStr (s : string)
| VArr (l : list val).

(** A JS object (a note, a partial note, an update) as its own enumerable
    properties.  Property order is not modelled. *)
Abbreviation obj := (gmap string val).

(** Property read [o.k]: [undefined] when the property is absent. *)
Definition get (o : obj) (k : string) : val := default VUndef (o !! k).

(** JS truthiness and [a || b]. *)
Definition truthy (v : val) : bool :=
  match v with
  | VUndef | VNull => false
  | VBool b => b
  | VNum z => negb (Z.eqb z 0)
  | VStr s => negb (String.eqb s "")
  | VArr _ => true
  end.

Definition js_or (a b : val) : val := if truthy a then a else b.

(** Strict equality [===].  Arrays are objects compared by reference; every
    array read from a backend is a fresh object, so [===] on an array is
    false. *)
Definition strict_eq (a b : val) : bool :=
  match a, b with
  | VUndef, VUndef => true
  | VNull, VNull => true
  | VBool x, VBool y => Bool.eqb x y
  | VNum x, VNum y => Z.eqb x y
  | VStr x, VStr y => String.eqb x y
  | _, _ => false
  end.

Definition is_undef (v : val) : bool :=
  match v with VUndef => true | _ => false end.

(** ** JSON serialisation (localStorage)

    [JSON.parse(JSON.stringify(v))]: [undefined] array elements become
    [null]; properties whose value is [undefined] are dropped. *)
Fixpoint json_val (v : val) : val :=
  match v with
  | VArr l => VArr (map (fun x => match x with
                                  | VUndef => VNull
                                  | _ => json_val x
                                  end) l)
  | _ => v
  end.

Definition json_obj (o : obj) : obj :=
  json_val <$> filter (fun kv => is_undef kv.2 = false) o.

(** ** Text helpers *)

(** [String.prototype.toLowerCase] on code points 0..255: ASCII [A-Z] and
    Latin-1 [À-Þ] (except [×]) move up by 32. *)
Definition lower_char (c : ascii) : ascii :=
  let n := nat_of_ascii c in
  (if ((65 <=? n) && (n <=? 90)) || ((192 <=? n) && (n <=? 222) && negb (n =? 215))
   then ascii_of_nat (n + 32) else c)%nat.

Fixpoint lower (s : string) : string :=
  match s with
  | EmptyString => EmptyString
  | String c s' => String (lower_char c) (lower s')
  end.

(** [hay.includes(needle)]. *)
Fixpoint includes (hay needle : string) : bool :=
  String.prefix needle hay ||
  match hay with
  | EmptyString => false
  | String _ hay' => includes hay' needle
  end.

Fixpoint zeros (k : nat) : string :=
  match k with O => "" | S k' => String "0" (zeros k') end.

(** [n] in decimal, left-padded with zeros to [w] digits. *)
Definition pad (w : nat) (n : N) : string :=
  let s := pretty n in zeros (w - String.length s) +:+ s.

(** [new Date(ms).toISOString()] for a clock reading [ms] (milliseconds
    since the epoch); the civil date is computed from the day count. *)
Definition toISOString (ms : N) : string :=
  let days := (ms / 86400000)%N in
  let msd := (ms mod 86400000)%N in
  let z := (days + 719468)%N in
  let era := (z / 146097)%N in
  let doe := (z - era * 146097)%N in
  let yoe := ((doe - doe / 1460 + doe / 36524 - doe / 146096) / 365)%N in
  let y := (yoe + era * 400)%N in
  let doy := (doe - (365 * yoe + yoe / 4 - yoe / 100))%N in
  let mp := ((5 * doy + 2) / 153)%N in
  let d := (doy - (153 * mp + 2) / 5 + 1)%N in
  let m := if (mp <? 10)%N then (mp + 3)%N else (mp - 9)%N in
  let y' := if (m <=? 2)%N then (y + 1)%N else y in
  let year := if (y' <=? 9999)%N then pad 4 y' else "+" +:+ pad 6 y' in
  year +:+ "-" +:+ pad 2 m +:+ "-" +:+ pad 2 d +:+ "T" +:+
  pad 2 (msd / 3600000) +:+ ":" +:+ pad 2 ((msd / 60000) mod 60) +:+ ":" +:+
  pad 2 ((msd / 1000) mod 60) +:+ "." +:+ pad 3 (msd mod 1000) +:+ "Z".

(** ** Outcomes of the asynchronous operations *)
Inductive err :=
| Error (msg : string)   (** [new Error(msg)] *)
| SyntaxError            (** thrown by [JSON.parse] *)
| TypeError              (** a property or method used on the wrong type *)
| DataError.             (** IndexedDB: the value is not a valid key *)

Inductive result (A : Type) :=
| Ok (a : A)
| Err (e : err).
Arguments Ok {A} a.
Arguments Err {A} e.

(** ** IndexedDB keys

    A value is a valid key when it is a number, a string, or an array of
    valid keys.  Keys order numbers before strings before arrays; strings
    by code units, arrays element-wise. *)
Inductive key :=
| KNum (z : Z)
| KStr (s : string)
| KArr (l : list key).

Fixpoint valid_key (v : val) : option key :=
  match v with
  | VNum z => Some (KNum z)
  | VStr s => Some (KStr s)
  | VArr l =>
      KArr <$> (fix go (l : list val) : option (list key) :=
                  match l with
                  | [] => Some []
                  | x :: l' =>
                      match valid_key x, go l' with
                      | Some k, Some ks => Some (k :: ks)
                      | _, _ => None
                      end
                  end) l
  | _ => None
  end.

Fixpoint key_cmp (a b : key) : comparison :=
  match a, b with
  | KNum x, KNum y => Z.compare x y
  | KNum _, _ => Lt
  | KStr _, KNum _ => Gt
  | KStr x, KStr y => String.compare x y
  | KStr _, KArr _ => Lt
  | KArr xs, KArr ys =>
      (fix go (xs ys : list key) : comparison :=
         match xs, ys with
         | [], [] => Eq
         | [], _ :: _ => Lt
         | _ :: _, [] => Gt
         | x :: xs', y :: ys' =>
             match key_cmp x y with Eq => go xs' ys' | c => c end
         end) xs ys
  | KArr _, _ => Gt
  end.

Definition key_same (a b : key) : bool :=
  match key_cmp a b with Eq => true | _ => false end.

(** ** The IndexedDB object store [notes] (keyPath [id])

    Records in ascending primary-key order, as [getAll] returns them. *)
Abbreviation idb := (list (key * obj)).

Definition idb_get (k : key) (db : idb) : option obj :=
  snd <$> List.find (fun kv => key_same k kv.1) db.

(** [store.put]: insert in key order, replacing a record with the same key. *)
Fixpoint idb_put (k : key) (v : obj) (db : idb) : idb :=
  match db with
  | [] => [(k, v)]
  | (k', v') :: db' =>
      match key_cmp k k' with
      | Lt => (k, v) :: db
      | Eq => (k, v) :: db'
      | Gt => (k', v') :: idb_put k v db'
      end
  end.

(** [store.add]: [None] when the key is taken (a ConstraintError). *)
Definition idb_add (k : key) (v : obj) (db : idb) : option idb :=
  match idb_get k db with
  | Some _ => None
  | None => Some (idb_put k v db)
  end.

Definition idb_delete (k : key) (db : idb) : idb :=
  List.filter (fun kv => negb (key_same k kv.1)) db.

(** The [folder] index: records whose [folder] is a valid key, ordered by
    that key and then by primary key (a stable insertion by index key over
    the store in primary-key order). *)
Fixpoint ix_insert (e : key * obj) (ix : list (key * obj)) : list (key * obj) :=
  match ix with
  | [] => [e]
  | e' :: ix' =>
      match key_cmp e.1 e'.1 with
      | Lt => e :: ix
      | _ => e' :: ix_insert e ix'
      end
  end.

Definition folder_index (db : idb) : list (key * obj) :=
  fold_left (fun ix kv =>
               match valid_key (get kv.2 "folder") with
               | Some ik => ix_insert (ik, kv.2) ix
               | None => ix
               end) db [].

(** [index('folder').getAll(query)]: [undefined] and [null] select the whole
    index; any other non-key throws a DataError. *)
Definition index_getAll (db : idb) (q : val) : result (list obj) :=
  match q with
  | VUndef | VNull => Ok (map snd (folder_index db))
  | _ =>
      match valid_key q with
      | None => Err DataError
      | Some k => Ok (map snd (List.filter (fun e => key_same e.1 k) (folder_index db)))
      end
  end.

(** ** The localStorage item [offline_notes]

    [BJson l] is the text [JSON.stringify(l)]; [BText s] is any other text,
    one that is not valid JSON (the empty text included). *)
Inductive blob :=
| BJson (notes : list obj)
| BText (s : string).

(** [getNotesFromLocalStorage]: a missing or empty item is [[]]; otherwise
    [JSON.parse], which throws on text that is not JSON. *)
Definition getNotesFromLocalStorage (ls : option blob) : result (list obj) :=
  match ls with
  | None => Ok []
  | Some (BText s) => if String.eqb s "" then Ok [] else Err SyntaxError
  | Some (BJson l) => Ok (map json_obj l)
  end.

(** ** Manager state

    [isIndexedDBSupported] selects the backend once, at initialisation.
    [st_tick] counts the reads of the clock and of the random source. *)
Inductive backend :=
| Primary (db : idb)
| Fallback (ls : option blob).

Record state := mkState { st_backend : backend; st_tick : nat }.

(** One reading of the environment: [Date.now()] (milliseconds since the
    epoch) and the text [Math.random().toString(36).substr(2, 9)]. *)
Record reading := mkReading { r_now : N; r_rand : string }.

(** A state and error monad: an operation returns its outcome (a resolved
    value or a rejection) and the state it leaves behind. *)
Definition M (A : Type) : Type := state -> result A * state.

Global Instance M_ret : MRet M := fun A a s => (Ok a, s).
Global Instance M_bind : MBind M := fun A B f m s =>
  match m s with
  | (Ok a, s') => f a s'
  | (Err e, s') => (Err e, s')
  end.

Definition throw {A} (e : err) : M A := fun s => (Err e, s).
Definition set_backend (b : backend) : M unit :=
  fun s => (Ok tt, mkState b (st_tick s)).
Definition backend_now : M backend := fun s => (Ok (st_backend s), s).
Definition lift {A} (r : result A) : M A := fun s => (r, s).

(** ** The operations of [StorageManager]

    [env i] is the [i]-th reading of the environment; each call of
    [Date.now()], [new Date()] or [Math.random()] consumes one. *)
Section Operations.

Variable env : nat -> reading.

Definition date_now : M N :=
  fun s => (Ok (r_now (env (st_tick s))), mkState (st_backend s) (S (st_tick s))).

Definition math_random : M string :=
  fun s => (Ok (r_rand (env (st_tick s))), mkState (st_backend s) (S (st_tick s))).

(** [new Date().toISOString()]. *)
Definition now_iso : M string := t ← date_now; mret (toISOString t).

(** [generateId]: ['note_' + Date.now() + '_' + Math.random().toString(36).substr(2, 9)]. *)
Definition generateId : M string :=
  t ← date_now; r ← math_random; mret ("note_" +:+ pretty t +:+ "_" +:+ r).

(** The object literal of [createNote]: the defaults, then [...noteData]. *)
Definition note_literal (noteData : obj) (id c u : string) : obj :=
  noteData ∪
  <["id" := VStr id]> (<["title" := js_or (get noteData "title") (VStr "Untitled Note")]>
  (<["content" := js_or (get noteData "content") (VStr "")]>
  (<["tags" := js_or (get noteData "tags") (VArr [])]>
  (<["folder" := js_or (get noteData "folder") (VStr "default")]>
  (<["createdAt" := VStr c]> (<["updatedAt" := VStr u]> ∅)))))).

(** [createNoteIndexedDB] / [createNoteLocalStorage].  The model's
    localStorage has no capacity limit: [setItem] always succeeds, where a
    browser may throw a [QuotaExceededError] that the [catch] turns into a
    rejection. *)
Definition createNoteStore (note : obj) : M obj :=
  b ← backend_now;
  match b with
  | Primary db =>
      match valid_key (get note "id") with
      | None => throw DataError
      | Some k =>
          match idb_add k note db with
          | None => throw (Error "Failed to create note")
          | Some db' => set_backend (Primary db');; mret note
          end
      end
  | Fallback ls =>
      match getNotesFromLocalStorage ls with
      | Err _ => throw (Error "Failed to create note in localStorage")
      | Ok notes => set_backend (Fallback (Some (BJson (notes ++ [note]))));; mret note
      end
  end.

Definition createNote (noteData : obj) : M obj :=
  id ← generateId; c ← now_iso; u ← now_iso;
  createNoteStore (note_literal noteData id c u).

(** [getAllNotesIndexedDB] / [getAllNotesLocalStorage]. *)
Definition read_all (b : backend) : result (list obj) :=
  match b with
  | Primary db => Ok (map snd db)
  | Fallback ls =>
      match getNotesFromLocalStorage ls with
      | Ok l => Ok l
      | Err _ => Err (Error "Failed to get notes from localStorage")
      end
  end.

Definition getAllNotes : M (list obj) := b ← backend_now; lift (read_all b).

(** [getNoteIndexedDB] / [getNoteLocalStorage]; [None] is [undefined]. *)
Definition read_note (b : backend) (id : val) : result (option obj) :=
  match b with
  | Primary db =>
      match valid_key id with
      | None => Err DataError
      | Some k => Ok (idb_get k db)
      end
  | Fallback ls =>
      match getNotesFromLocalStorage ls with
      | Ok l => Ok (List.find (fun n => strict_eq (get n "id") id) l)
      | Err _ => Err (Error "Failed to get note from localStorage")
      end
  end.

Definition getNote (id : val) : M (option obj) := b ← backend_now; lift (read_note b id).

(** [updateNoteIndexedDB] / [updateNoteLocalStorage]. *)
Definition updateNoteStore (note : obj) : M obj :=
  b ← backend_now;
  match b with
  | Primary db =>
      match valid_key (get note "id") with
      | None => throw DataError
      | Some k => set_backend (Primary (idb_put k note db));; mret note
      end
  | Fallback ls =>
      match getNotesFromLocalStorage ls with
      | Err _ => throw (Error "Failed to update note in localStorage")
      | Ok notes =>
          match list_find (fun n => strict_eq (get n "id") (get note "id") = true) notes with
          | None => throw (Error "Failed to update note in localStorage")
          | Some (i, _) => set_backend (Fallback (Some (BJson (<[i := note]> notes))));; mret note
          end
      end
  end.

(** [updateNote]: [{...existingNote, ...updates, updatedAt: now}]. *)
Definition updateNote (id : val) (updates : obj) : M obj :=
  ex ← getNote id;
  match ex with
  | None => throw (Error "Note not found")
  | Some existing =>
      t ← now_iso;
      updateNoteStore (<["updatedAt" := VStr t]> (updates ∪ existing))
  end.

Definition deleteNote (id : val) : M bool :=
  b ← backend_now;
  match b with
  | Primary db =>
      match valid_key id with
      | None => throw DataError
      | Some k => set_backend (Primary (idb_delete k db));; mret true
      end
  | Fallback ls =>
      match getNotesFromLocalStorage ls with
      | Err _ => throw (Error "Failed to delete note from localStorage")
      | Ok notes =>
          set_backend (Fallback (Some (BJson (List.filter
            (fun n => negb (strict_eq (get n "id") id)) notes))));; mret true
      end
  end.

(** [v.toLowerCase()]: only strings have the method. *)
Definition to_lower_js (v : val) : result string :=
  match v with
  | VStr s => Ok (lower s)
  | _ => Err TypeError
  end.

(** [tags.some(tag => tag.toLowerCase().includes(t))], left to right. *)
Fixpoint some_tag (t : string) (tags : list val) : result bool :=
  match tags with
  | [] => Ok false
  | tag :: tags' =>
      match to_lower_js tag with
      | Err e => Err e
      | Ok s => if includes s t then Ok true else some_tag t tags'
      end
  end.

(** The predicate of [searchNotes], with the short-circuit of [||]. *)
Definition search_match (t : string) (note : obj) : result bool :=
  match to_lower_js (get note "title") with
  | Err e => Err e
  | Ok ti =>
      if includes ti t then Ok true else
      match to_lower_js (get note "content") with
      | Err e => Err e
      | Ok co =>
          if includes co t then Ok true else
          match get note "tags" with
          | VArr tags => some_tag t tags
          | _ => Err TypeError
          end
      end
  end.

(** [Array.prototype.filter] with a predicate that may throw. *)
Fixpoint filter_res (p : obj -> result bool) (l : list obj) : result (list obj) :=
  match l with
  | [] => Ok []
  | x :: l' =>
      match p x with
      | Err e => Err e
      | Ok b =>
          match filter_res p l' with
          | Err e => Err e
          | Ok r => Ok (if b then x :: r else r)
          end
      end
  end.

Definition searchNotes (query : string) : M (list obj) :=
  all ← getAllNotes; lift (filter_res (search_match (lower query)) all).

Definition getNotesByFolder (folder : val) : M (list obj) :=
  b ← backend_now;
  match b with
  | Primary db => lift (index_getAll db folder)
  | Fallback _ =>
      all ← getAllNotes;
      mret (List.filter (fun n => strict_eq (get n "folder") folder) all)
  end.

Definition clearAllData : M bool :=
  b ← backend_now;
  match b with
  | Primary _ => set_backend (Primary []);; mret true
  | Fallback _ => set_backend (Fallback (Some (BJson [])));; mret true
  end.

(** ** Export bundles

    The [notes] property of a bundle: an array of note objects, or any
    other value.  [importData] reads no other property of the bundle. *)
Inductive bfield :=
| BNotes (l : list obj)
| BOther (v : val).

Record bundle := mkBundle {
  b_version : val;
  b_exportDate : val;
  b_notes : option bfield
}.

Definition exportData : M bundle :=
  notes ← getAllNotes; d ← now_iso;
  mret (mkBundle (VNum 1) (VStr d) (Some (BNotes notes))).

(** The own enumerable properties of a non-object array element, as the
    spread [...noteData] copies them; reading [noteData.title] on [null]
    or [undefined] throws. *)
Definition index_obj (l : list val) : obj :=
  list_to_map (imap (fun i x => (pretty (N.of_nat i), x)) l).

Definition obj_of_val (v : val) : result obj :=
  match v with
  | VUndef | VNull => Err TypeError
  | VBool _ | VNum _ => Ok ∅
  | VStr s => Ok (index_obj (map (fun c => VStr (String c "")) (list_ascii_of_string s)))
  | VArr l => Ok (index_obj l)
  end.

(** [for (const noteData of data.notes) await this.createNote(noteData)]. *)
Fixpoint createAll (l : list obj) : M unit :=
  match l with
  | [] => mret tt
  | n :: l' => createNote n;; createAll l'
  end.

Fixpoint createAllVals (l : list val) : M unit :=
  match l with
  | [] => mret tt
  | v :: l' => o ← lift (obj_of_val v); createNote o;; createAllVals l'
  end.

(** [importData]: [!data.notes || !Array.isArray(data.notes)] rejects; an
    array (empty ones included) clears the store and creates each note. *)
Definition importData (data : bundle) : M nat :=
  match b_notes data with
  | Some (BNotes l) => clearAllData;; createAll l;; mret (length l)
  | Some (BOther (VArr vs)) => clearAllData;; createAllVals vs;; mret (length vs)
  | _ => throw (Error "Invalid import data format")
  end.

End Operations.

(** ** Sequences of calls and predicates used in the statements *)

(** Independent [createNote] calls issued one after the other; each
    outcome is kept, a rejection does not stop the sequence. *)
Fixpoint createSeq (env : nat -> reading) (l : list obj) (s : state)
  : list (result obj) * state :=
  match l with
  | [] => ([], s)
  | nd :: l' =>
      let '(r, s1) := createNote env nd s in
      let '(rs, s2) := createSeq env l' s1 in
      (r :: rs, s2)
  end.

(** The [id]s of the notes the resolved calls returned. *)
Definition returned_ids (rs : list (result obj)) : list val :=
  omap (fun r => match r with Ok n => Some (get n "id") | Err _ => None end) rs.

(** The fields every note created by [createNote] carries. *)
Definition note_fields : list string :=
  ["id"; "title"; "content"; "tags"; "folder"; "createdAt"; "updatedAt"].

Definition note_complete (n : obj) : Prop := ∀ k, k ∈ note_fields → is_Some (n !! k).

(** IndexedDB keeps each record under the key its [id] evaluates to, and
    the keys are distinct. *)
Definition idb_wf (db : idb) : Prop :=
  NoDup db.*1 ∧ ∀ k n, (k, n) ∈ db → valid_key (get n "id") = Some k.

Definition backend_wf (b : backend) : Prop :=
  match b with Primary db => idb_wf db | Fallback _ => True end.

(** The readable notes of a backend all satisfy [P]. *)
Definition all_notes (P : obj -> Prop) (b : backend) : Prop :=
  ∃ l, read_all b = Ok l ∧ ∀ n, n ∈ l → P n.

(** [id] is stored: a record under that key, or a parsed note with that
    [id]. *)
Definition id_present (b : backend) (id : string) : Prop :=
  match b with
  | Primary db => ∃ n, (KStr id, n) ∈ db
  | Fallback ls => ∃ l n, getNotesFromLocalStorage ls = Ok l ∧ n ∈ l ∧ get n "id" = VStr id
  end.

Definition readable (b : backend) : Prop := ∃ l, read_all b = Ok l.

Definition notes_is_array (f : option bfield) : bool :=
  match f with
  | Some (BNotes _) | Some (BOther (VArr _)) => true
  | _ => false
  end.

(** The search of the spec, for a note whose [title] and [content] are
    text and whose [tags] are a sequence of text. *)
Definition text_note (n : obj) : Prop :=
  (∃ s, get n "title" = VStr s) ∧ (∃ s, get n "content" = VStr s) ∧
  ∃ tags, get n "tags" = VArr tags ∧ Forall (fun t => ∃ s, t = VStr s) tags.

Definition search_spec (q : string) (n : obj) : bool :=
  let t := lower q in
  match get n "title", get n "content", get n "tags" with
  | VStr ti, VStr co, VArr tags =>
      includes (lower ti) t || includes (lower co) t ||
      existsb (fun tag => match tag with VStr s => includes (lower s) t | _ => false end) tags
  | _, _, _ => false
  end.

(** The folder filter of the spec: the note's [folder] is the text [f]. *)
Definition in_folder (f : string) (n : obj) : bool :=
  match get n "folder" with VStr s => String.eqb s f | _ => false end.


(** The identifier [generateId] builds from the readings [t] and [t + 1]. *)
Definition gen_id (env : nat -> reading) (t : nat) : string :=
  "note_" +:+ pretty (r_now (env t)) +:+ "_" +:+ r_rand (env (S t)).

(** Induction over values and keys, with the hypothesis on array elements. *)
Section ValInd.
Variable P : val -> Prop.
Hypothesis HUndef : P VUndef.
Hypothesis HNull : P VNull.
Hypothesis HBool : ∀ b, P (VBool b).
Hypothesis HNum : ∀ z, P (VNum z).
Hypothesis HStr : ∀ s, P (VStr s).
Hypothesis HArr : ∀ l, Forall P l -> P (VArr l).
Fixpoint val_ind' (v : val) : P v :=
  match v with
  | VUndef => HUndef
  | VNull => HNull
  | VBool b => HBool b
  | VNum z => HNum z
  | VStr s => HStr s
  | VArr l =>
      HArr l ((fix go (l : list val) : Forall P l :=
                 match l with
                 | [] => List.Forall_nil P
                 | x :: l' => @List.Forall_cons _ P x l' (val_ind' x) (go l')
                 end) l)
  end.
End ValInd.

Section KeyInd.
Variable P : key -> Prop.
Hypothesis HNum : ∀ z, P (KNum z).
Hypothesis HStr : ∀ s, P (KStr s).
Hypothesis HArr : ∀ l, Forall P l -> P (KArr l).
Fixpoint key_ind' (k : key) : P k :=
  match k with
  | KNum z => HNum z
  | KStr s => HStr s
  | KArr l =>
      HArr l ((fix go (l : list key) : Forall P l :=
                 match l with
                 | [] => List.Forall_nil P
                 | x :: l' => @List.Forall_cons _ P x l' (key_ind' x) (go l')
                 end) l)
  end.
End KeyInd.

(** The environments used in the examples: a clock that ticks one
    millisecond per reading, and one that stands still. *)
Definition ticking (i : nat) : reading := mkReading (1700000000000 + N.of_nat i) "k2j4x9a1q".
Definition frozen (i : nat) : reading := mkReading 1700000000000 "k2j4x9a1q".

(** ** [initLocalStorage]

    [typeof Storage === 'undefined'] is the flag [storage_defined]; a
    missing or empty item ([!localStorage.getItem(...)]) is set to ['[]']. *)
Definition initLocalStorage (storage_defined : bool) (ls : option blob) : result (option blob) :=
  if negb storage_defined
  then Err (Error "Neither IndexedDB nor localStorage is supported")
  else match ls with
       | None => Ok (Some (BJson []))
       | Some (BText s) => if String.eqb s "" then Ok (Some (BJson [])) else Ok ls
       | Some (BJson _) => Ok ls
       end.

(** ** Helpers of the proofs *)

(** What [JSON.parse(JSON.stringify(o))] keeps of one property. *)
Definition json_prop (ov : option val) : option val :=
  match ov with
  | Some VUndef | None => None
  | Some v => Some (json_val v)
  end.

(** The index entries of the records, in store order. *)
Definition index_entries (db : idb) : list (key * obj) :=
  omap (fun kv => (fun ik => (ik, kv.2)) <$> valid_key (get kv.2 "folder")) db.

(** The text has no ['_'] character. *)
Fixpoint no_us (s : string) : bool :=
  match s with
  | EmptyString => true
  | String c s' => negb (Ascii.eqb c "_"%char) && no_us s'
  end.

(** * Lemmas about the model *)

(** ** Keys *)

Lemma string_compare_refl (s : string) : String.compare s s = Eq.
Proof.
  induction s as [|c s IH]; simpl; [reflexivity|].
  unfold Ascii.compare. rewrite N.compare_refl. exact IH.
Qed.

Lemma key_cmp_refl (k : key) : key_cmp k k = Eq.
Proof.
  induction k as [z|s|l IH] using key_ind'; simpl.
  - apply Z.compare_refl.
  - apply string_compare_refl.
  - induction IH as [|x l Hx _ IHl]; simpl; [reflexivity|].
    rewrite Hx. exact IHl.
Qed.

Lemma key_cmp_eq (a b : key) : key_cmp a b = Eq -> a = b.
Proof.
  revert b.
  induction a as [z|s|l IH] using key_ind'; intros [z'|s'|l']; simpl;
    try discriminate.
  - intros H. apply Z.compare_eq in H. subst. reflexivity.
  - intros H. apply String.compare_eq_iff in H. subst. reflexivity.
  - intros H. f_equal. revert l' H.
    induction IH as [|x l Hx _ IHl]; intros [|y l'] H; simpl in H;
      try discriminate; [reflexivity|].
    destruct (key_cmp x y) eqn:E; try discriminate.
    apply Hx in E. subst. f_equal. apply IHl. exact H.
Qed.

Lemma key_same_iff (a b : key) : key_same a b = true <-> a = b.
Proof.
  unfold key_same. split.
  - destruct (key_cmp a b) eqn:E; try discriminate. intros _. apply key_cmp_eq, E.
  - intros ->. rewrite key_cmp_refl. reflexivity.
Qed.

Lemma valid_key_str (v : val) (s : string) : valid_key v = Some (KStr s) <-> v = VStr s.
Proof.
  split.
  - destruct v; simpl; try discriminate.
    + intros H. injection H as ->. reflexivity.
    + destruct (_ : option (list key)); discriminate.
  - intros ->. reflexivity.
Qed.

(** ** The object store *)

Lemma idb_get_None (k : key) (db : idb) :
  idb_get k db = None <-> ∀ k' n, (k', n) ∈ db -> k' ≠ k.
Proof.
  unfold idb_get. induction db as [|[k' n'] db IH]; simpl.
  - split; [intros _ ? ? H; inversion H | reflexivity].
  - destruct (key_same k k') eqn:E; simpl.
    + apply key_same_iff in E. subst. split; [discriminate|].
      intros H. exfalso. apply (H k' n'); [left | reflexivity].
    + rewrite IH. split.
      * intros H k'' n'' Hin. apply elem_of_cons in Hin as [Hin|Hin].
        -- injection Hin as -> ->. intros ->.
           rewrite (proj2 (key_same_iff k k) eq_refl) in E. discriminate.
        -- exact (H _ _ Hin).
      * intros H k'' n'' Hin. apply (H k'' n''). right. exact Hin.
Qed.

Lemma idb_get_Some (k : key) (db : idb) (n : obj) :
  idb_get k db = Some n -> (k, n) ∈ db.
Proof.
  unfold idb_get. induction db as [|[k' n'] db IH]; simpl; [discriminate|].
  destruct (key_same k k') eqn:E; simpl.
  - intros H. injection H as ->. apply key_same_iff in E. subst. left.
  - intros H. right. apply IH, H.
Qed.

Lemma idb_put_absent (k : key) (n : obj) (db : idb) :
  idb_get k db = None -> idb_put k n db ≡ₚ (k, n) :: db.
Proof.
  intros H. pose proof (proj1 (idb_get_None k db) H) as H0. clear H. rename H0 into H.
  induction db as [|[k' n'] db IH]; simpl.
  - reflexivity.
  - destruct (key_cmp k k') eqn:E.
    + apply key_cmp_eq in E. subst. exfalso. apply (H k' n'); [left | reflexivity].
    + reflexivity.
    + rewrite IH. { apply perm_swap. }
      intros k'' n'' Hin. apply (H k'' n''). right. exact Hin.
Qed.

Lemma idb_get_put_eq (k : key) (n : obj) (db : idb) : idb_get k (idb_put k n db) = Some n.
Proof.
  unfold idb_get. induction db as [|[k' n'] db IH]; simpl.
  - unfold key_same. rewrite key_cmp_refl. reflexivity.
  - destruct (key_cmp k k') eqn:E; simpl.
    + unfold key_same. rewrite key_cmp_refl. reflexivity.
    + unfold key_same. rewrite key_cmp_refl. reflexivity.
    + assert (key_same k k' = false) as ->.
      { unfold key_same. rewrite E. reflexivity. }
      exact IH.
Qed.

(** ** JSON round trip of the localStorage blob *)

Lemma json_val_not_undef (v : val) : v ≠ VUndef -> json_val v ≠ VUndef.
Proof. destruct v; simpl; congruence. Qed.

Lemma json_val_idem (v : val) : json_val (json_val v) = json_val v.
Proof.
  induction v as [| | | | |l IH] using val_ind'; try reflexivity.
  simpl. f_equal. rewrite map_map. apply map_ext_in.
  intros x Hx. rewrite Forall_forall in IH.
  specialize (IH x ltac:(apply list_elem_of_In; exact Hx)).
  destruct x; try reflexivity.
  - simpl in IH |- *. destruct (map _ l0) eqn:E; simpl in IH |- *; congruence.
Qed.

Lemma json_obj_lookup (o : obj) (k : string) : json_obj o !! k = json_prop (o !! k).
Proof.
  unfold json_obj. rewrite lookup_fmap, map_lookup_filter.
  destruct (o !! k) as [v|]; simpl; [|reflexivity].
  destruct v; simpl; reflexivity.
Qed.

Lemma json_prop_idem (ov : option val) : json_prop (json_prop ov) = json_prop ov.
Proof.
  destruct ov as [v|]; [|reflexivity].
  destruct v as [| | | | |l]; try reflexivity.
  change (Some (json_val (json_val (VArr l))) = Some (json_val (VArr l))).
  rewrite json_val_idem. reflexivity.
Qed.

Lemma json_obj_idem (o : obj) : json_obj (json_obj o) = json_obj o.
Proof.
  apply map_eq. intros k. rewrite !json_obj_lookup. apply json_prop_idem.
Qed.

Lemma strict_eq_json (n : obj) (k : string) (v : val) :
  strict_eq (get (json_obj n) k) v = strict_eq (get n k) v.
Proof.
  unfold get. rewrite json_obj_lookup.
  destruct (n !! k) as [[]|]; simpl; try reflexivity; destruct v; reflexivity.
Qed.

Lemma strict_eq_refl_r (a b : val) : strict_eq a b = true -> strict_eq b b = true.
Proof.
  destruct a, b; simpl; try discriminate; intros _;
    try apply Bool.eqb_reflx; try apply Z.eqb_refl; try apply String.eqb_refl;
    reflexivity.
Qed.

Lemma strict_eq_str (a : val) (s : string) : strict_eq a (VStr s) = true <-> a = VStr s.
Proof.
  destruct a; simpl; split; try discriminate; try (intros H; discriminate H).
  - intros H. apply String.eqb_eq in H. subst. reflexivity.
  - intros H. injection H as ->. apply String.eqb_refl.
Qed.

(** Replacing the [i]-th note, found by [findIndex], and reading the blob
    back: [find] with the same test returns the new note. *)
Lemma find_after_replace (l : list obj) (i : nat) (x y : obj) (v : val) :
  list_find (fun n => strict_eq (get n "id") v = true) l = Some (i, x) ->
  strict_eq (get y "id") v = true ->
  List.find (fun m => strict_eq (get m "id") v) (map json_obj (<[i := y]> l))
  = Some (json_obj y).
Proof.
  revert i. induction l as [|a l IH]; intros i Hf Hy; simpl in Hf; [discriminate|].
  destruct (decide (strict_eq (get a "id") v = true)) as [Ha|Ha].
  - injection Hf as <- <-. simpl. rewrite strict_eq_json, Hy. reflexivity.
  - destruct (list_find _ l) as [[j z]|] eqn:E; simpl in Hf; [|discriminate].
    injection Hf as <- <-. simpl. rewrite strict_eq_json.
    apply not_true_is_false in Ha. rewrite Ha. apply (IH j); [reflexivity | exact Hy].
Qed.

Ltac unfold_M :=
  unfold mbind, mret, M_bind, M_ret, throw, set_backend, backend_now, lift in *.

(** ** Reads of the stored notes *)

Lemma read_note_absent (b : backend) (id : string) :
  readable b -> ¬ id_present b id -> read_note b (VStr id) = Ok None.
Proof.
  intros [l Hl] Hnp. destruct b as [db|ls]; simpl in *.
  - f_equal. apply idb_get_None. intros k' n Hin ->. apply Hnp. exists n. exact Hin.
  - destruct (getNotesFromLocalStorage ls) as [l'|e] eqn:E; [|discriminate].
    f_equal. destruct (List.find _ l') as [n|] eqn:F; [|reflexivity].
    apply find_some in F as [Hin Heq]. apply strict_eq_str in Heq.
    exfalso. apply Hnp. exists l', n. split; [reflexivity|]. split; [|exact Heq].
    apply list_elem_of_In. exact Hin.
Qed.

Lemma read_all_fallback (ls : option blob) (l : list obj) :
  read_all (Fallback ls) = Ok l <-> getNotesFromLocalStorage ls = Ok l.
Proof.
  simpl. destruct (getNotesFromLocalStorage ls); split; congruence.
Qed.

(** * The claims *)

(** C1 (code_bug).  The tests ("should handle corrupted data gracefully")
    store the text [invalid json] and expect [getAllNotes] to resolve with
    an array.  On the fallback backend every read rejects instead:
    [JSON.parse] throws and the [catch] of each reader turns it into a
    rejection, which [searchNotes] and [getNotesByFolder] pass on. *)
Theorem corrupt_blob_reads_reject :
  let st := mkState (Fallback (Some (BText "invalid json"))) 0 in
  getAllNotes st = (Err (Error "Failed to get notes from localStorage"), st) ∧
  getNote (VStr "note_1700000000000_k2j4x9a1q") st
    = (Err (Error "Failed to get note from localStorage"), st) ∧
  searchNotes "note" st = (Err (Error "Failed to get notes from localStorage"), st) ∧
  getNotesByFolder (VStr "default") st
    = (Err (Error "Failed to get notes from localStorage"), st).
Proof. simpl. repeat split; reflexivity. Qed.

(** C5 (code_bug).  On the localStorage fallback whose stored item is
    not empty and cannot be parsed, no [id] is stored, yet [updateNote]
    does not reject with ["Note not found"]: its lookup [getNote] fails
    first and the call rejects with ["Failed to get note from
    localStorage"] (the state is left as it was). *)
Theorem updateNote_unreadable_item (env : nat -> reading) (s id : string) (updates : obj) (t : nat) :
  s ≠ "" ->
  ¬ id_present (Fallback (Some (BText s))) id ∧
  updateNote env (VStr id) updates (mkState (Fallback (Some (BText s))) t)
  = (Err (Error "Failed to get note from localStorage"), mkState (Fallback (Some (BText s))) t).
Proof.
  intros Hs. apply String.eqb_neq in Hs.
  assert (E : getNotesFromLocalStorage (Some (BText s)) = Err SyntaxError)
    by (simpl; rewrite Hs; reflexivity).
  split.
  - intros (l & n & Hl & _). rewrite E in Hl. discriminate Hl.
  - unfold updateNote, getNote. unfold_M. simpl. rewrite Hs. reflexivity.
Qed.

Lemma updateNote_unreadable_item_witness :
  "invalid json" ≠ "" ∧
  ¬ id_present (Fallback (Some (BText "invalid json"))) "note_1" ∧
  updateNote ticking (VStr "note_1") (<["title" := VStr "Y"]> ∅)
    (mkState (Fallback (Some (BText "invalid json"))) 0)
  = (Err (Error "Failed to get note from localStorage"),
     mkState (Fallback (Some (BText "invalid json"))) 0).
Proof.
  split; [discriminate|].
  apply (updateNote_unreadable_item ticking "invalid json" "note_1" (<["title" := VStr "Y"]> ∅) 0).
  discriminate.
Defined.

(** X18.  On a store that can be read, [updateNote] on an [id] the store
    does not hold rejects with ["Note not found"] and leaves the state as it
    was: no record is written and no clock is read. *)
Theorem updateNote_missing_id (env : nat -> reading) (st : state) (id : string) (updates : obj) :
  readable (st_backend st) -> ¬ id_present (st_backend st) id ->
  updateNote env (VStr id) updates st = (Err (Error "Note not found"), st).
Proof.
  intros Hr Hnp. unfold updateNote, getNote. unfold_M.
  rewrite (read_note_absent _ _ Hr Hnp). reflexivity.
Qed.

Lemma updateNote_missing_id_witness :
  let na : obj := <["id" := VStr "note_0"]> (<["title" := VStr "A"]> ∅) in
  let st := mkState (Fallback (Some (BJson [na]))) 0 in
  readable (st_backend st) ∧ ¬ id_present (st_backend st) "note_1" ∧
  updateNote ticking (VStr "note_1") (<["title" := VStr "Y"]> ∅) st
  = (Err (Error "Note not found"), st).
Proof.
  intros na st.
  assert (Hr : readable (st_backend st)) by (eexists; reflexivity).
  assert (Hn : ¬ id_present (st_backend st) "note_1").
  { intros (l & n & E & Hin & Hid). simpl in E. injection E as <-.
    apply list_elem_of_singleton in Hin. subst n. vm_compute in Hid. discriminate Hid. }
  split; [exact Hr|]. split; [exact Hn|].
  apply updateNote_missing_id; assumption.
Defined.

(** C6.  [importData] on a bundle whose [notes] is missing or not an array
    rejects with ["Invalid import data format"] before clearing anything:
    the state is unchanged. *)
Theorem importData_invalid_format (env : nat -> reading) (st : state) (data : bundle) :
  notes_is_array (b_notes data) = false ->
  importData env data st = (Err (Error "Invalid import data format"), st).
Proof.
  intros H. unfold importData.
  destruct (b_notes data) as [[l|v]|]; simpl in H; try discriminate.
  - destruct v; try discriminate; reflexivity.
  - reflexivity.
Qed.

Lemma importData_invalid_format_witness :
  notes_is_array (b_notes (mkBundle (VNum 1) VUndef (Some (BOther (VStr "a"))))) = false ∧
  importData ticking (mkBundle (VNum 1) VUndef (Some (BOther (VStr "a"))))
    (mkState (Primary []) 3)
  = (Err (Error "Invalid import data format"), mkState (Primary []) 3).
Proof.
  split; [reflexivity|]. apply importData_invalid_format. reflexivity.
Defined.

(** The record [updateNote] builds and stores. *)
Lemma updateNote_ok (env : nat -> reading) (st : state) (id : val) (updates n : obj) (st' : state) :
  updateNote env id updates st = (Ok n, st') ->
  ∃ e, read_note (st_backend st) id = Ok (Some e) ∧
    n = <["updatedAt" := VStr (toISOString (r_now (env (st_tick st))))]> (updates ∪ e) ∧
    st_tick st' = S (st_tick st) ∧
    match st_backend st with
    | Primary db => ∃ k, valid_key (get n "id") = Some k ∧ st_backend st' = Primary (idb_put k n db)
    | Fallback ls => ∃ l i x, getNotesFromLocalStorage ls = Ok l ∧
        list_find (fun m => strict_eq (get m "id") (get n "id") = true) l = Some (i, x) ∧
        st_backend st' = Fallback (Some (BJson (<[i := n]> l)))
    end.
Proof.
  destruct st as [b t]. unfold updateNote, getNote, now_iso, date_now, updateNoteStore.
  unfold_M. simpl.
  destruct (read_note b id) as [[e|]|err] eqn:Hr; try (intros Hc; discriminate Hc).
  simpl. exists e. destruct b as [db|ls].
  - destruct (valid_key _) as [k|] eqn:Hk; [|discriminate H].
    injection H as <- <-. simpl. split; [reflexivity|]. split; [reflexivity|].
    split; [reflexivity|]. exists k. split; [exact Hk | reflexivity].
  - simpl in H. destruct (getNotesFromLocalStorage ls) as [l|err] eqn:Hl;
      [|discriminate H].
    destruct (list_find _ l) as [[i x]|] eqn:Hf; [|discriminate H].
    injection H as <- <-. simpl. split; [reflexivity|]. split; [reflexivity|].
    split; [reflexivity|]. exists l, i, x. split; [reflexivity|]. split; [exact Hf|reflexivity].
Qed.

(** C10.  Whatever [updates] holds, [updatedAt] included, the record
    [updateNote] resolves with and stores carries the timestamp of the
    clock reading the update takes: the stamp is spread last. *)
Theorem updateNote_stamps_updatedAt (env : nat -> reading) (st : state) (id : val)
    (updates n : obj) (st' : state) :
  updateNote env id updates st = (Ok n, st') ->
  get n "updatedAt" = VStr (toISOString (r_now (env (st_tick st)))) ∧
  ∃ m, read_note (st_backend st') (get n "id") = Ok (Some m) ∧
       get m "updatedAt" = VStr (toISOString (r_now (env (st_tick st)))).
Proof.
  intros H. apply updateNote_ok in H as (e & _ & Hn & _ & Hst).
  assert (Hu : get n "updatedAt" = VStr (toISOString (r_now (env (st_tick st))))).
  { rewrite Hn. unfold get. rewrite lookup_insert_eq. reflexivity. }
  split; [exact Hu|].
  destruct (st_backend st) as [db|ls].
  - destruct Hst as (k & Hk & ->). exists n. simpl. rewrite Hk, idb_get_put_eq.
    split; [reflexivity | exact Hu].
  - destruct Hst as (l & i & x & Hl & Hf & ->). exists (json_obj n). simpl.
    assert (Hx : strict_eq (get x "id") (get n "id") = true).
    { apply list_find_Some in Hf as (_ & Hx & _). exact Hx. }
    rewrite (find_after_replace l i x n (get n "id") Hf (strict_eq_refl_r _ _ Hx)).
    split; [reflexivity|].
    revert Hu. unfold get. rewrite json_obj_lookup.
    destruct (n !! "updatedAt") as [v|]; simpl; [|discriminate].
    intros ->. reflexivity.
Qed.

Lemma updateNote_stamps_updatedAt_witness :
  ∃ n st', updateNote ticking (VStr "a") (<["updatedAt" := VStr "1999"]> ∅)
             (mkState (Primary [(KStr "a", <["id" := VStr "a"]> ∅)]) 5) = (Ok n, st') ∧
  get n "updatedAt" = VStr (toISOString (r_now (ticking 5))) ∧
  ∃ m, read_note (st_backend st') (get n "id") = Ok (Some m) ∧
       get m "updatedAt" = VStr (toISOString (r_now (ticking 5))).
Proof.
  eexists _, _. split; [reflexivity|].
  apply (updateNote_stamps_updatedAt ticking
           (mkState (Primary [(KStr "a", <["id" := VStr "a"]> ∅)]) 5) (VStr "a")
           (<["updatedAt" := VStr "1999"]> ∅)).
  reflexivity.
Defined.

(** The note [createNote] builds: the literal over the generated [id] and
    the two timestamps; the call reads the environment four times. *)
Lemma createNote_ok (env : nat -> reading) (st : state) (nd : obj) (r : result obj) (st' : state) :
  createNote env nd st = (r, st') ->
  st_tick st' = 4 + st_tick st ∧
  ∀ n, r = Ok n ->
    n = note_literal nd (gen_id env (st_tick st))
          (toISOString (r_now (env (S (S (st_tick st))))))
          (toISOString (r_now (env (S (S (S (st_tick st))))))).
Proof.
  destruct st as [b t].
  unfold createNote, generateId, now_iso, date_now, math_random, createNoteStore.
  unfold_M. simpl. fold (gen_id env t).
  set (note := note_literal nd _ _ _).
  destruct b as [db|ls]; simpl.
  - destruct (valid_key (get note "id")) as [k|];
      [destruct (idb_add k note db)|]; intros H; injection H as <- <-;
      (split; [reflexivity|]); intros n' H; try discriminate H; injection H as <-; reflexivity.
  - destruct (getNotesFromLocalStorage ls); intros H; injection H as <- <-;
      (split; [reflexivity|]); intros n' H; try discriminate H; injection H as <-; reflexivity.
Qed.

(** X17.  Each field absent from the input of [createNote] takes its
    default: [title] ["Untitled Note"], [content] [""], [tags] [[]],
    [folder] ["default"], [id] the generated identifier, [createdAt] and
    [updatedAt] the timestamps of the third and fourth readings of the
    call; every field the input sets to a truthy value is kept as given. *)
Theorem createNote_fields (env : nat -> reading) (st : state) (nd n : obj) (st' : state) :
  createNote env nd st = (Ok n, st') ->
  (nd !! "title" = None -> n !! "title" = Some (VStr "Untitled Note")) ∧
  (nd !! "content" = None -> n !! "content" = Some (VStr "")) ∧
  (nd !! "tags" = None -> n !! "tags" = Some (VArr [])) ∧
  (nd !! "folder" = None -> n !! "folder" = Some (VStr "default")) ∧
  (nd !! "id" = None -> n !! "id" = Some (VStr (gen_id env (st_tick st)))) ∧
  (nd !! "createdAt" = None ->
     n !! "createdAt" = Some (VStr (toISOString (r_now (env (S (S (st_tick st)))))))) ∧
  (nd !! "updatedAt" = None ->
     n !! "updatedAt" = Some (VStr (toISOString (r_now (env (S (S (S (st_tick st))))))))) ∧
  (∀ k v, nd !! k = Some v -> truthy v = true -> n !! k = Some v).
Proof.
  intros H. apply createNote_ok in H as [_ H]. specialize (H n eq_refl). subst n.
  unfold note_literal, get.
  repeat split; try (intros Hk; rewrite lookup_union_r by exact Hk; rewrite ?Hk;
                     simplify_map_eq; reflexivity).
  intros k v Hk _. apply lookup_union_Some_l. exact Hk.
Qed.

Lemma createNote_fields_witness :
  ∃ n st', createNote ticking ∅ (mkState (Fallback None) 0) = (Ok n, st') ∧
  ((∅ : obj) !! "title" = None -> n !! "title" = Some (VStr "Untitled Note")) ∧
  ((∅ : obj) !! "content" = None -> n !! "content" = Some (VStr "")) ∧
  ((∅ : obj) !! "tags" = None -> n !! "tags" = Some (VArr [])) ∧
  ((∅ : obj) !! "folder" = None -> n !! "folder" = Some (VStr "default")) ∧
  ((∅ : obj) !! "id" = None -> n !! "id" = Some (VStr (gen_id ticking 0))) ∧
  ((∅ : obj) !! "createdAt" = None -> n !! "createdAt" = Some (VStr (toISOString (r_now (ticking 2))))) ∧
  ((∅ : obj) !! "updatedAt" = None -> n !! "updatedAt" = Some (VStr (toISOString (r_now (ticking 3))))) ∧
  (∀ k v, (∅ : obj) !! k = Some v -> truthy v = true -> n !! k = Some v).
Proof.
  eexists _, _. split; [reflexivity|].
  eapply (createNote_fields ticking (mkState (Fallback None) 0) ∅). reflexivity.
Defined.

(** C2 (code_bug).  An empty [title] is not replaced by ["Untitled Note"]:
    the literal sets [title: noteData.title || 'Untitled Note'], but the
    spread [...noteData] that follows puts the caller's [""] back, so the
    resolved note keeps the empty title, on either backend. *)
Theorem createNote_empty_title_kept (env : nat -> reading) (st : state) (nd n : obj) (st' : state) :
  nd !! "title" = Some (VStr "") ->
  createNote env nd st = (Ok n, st') ->
  get n "title" = VStr "".
Proof.
  intros Ht H. apply createNote_ok in H as [_ H]. specialize (H n eq_refl). subst n.
  unfold note_literal, get. rewrite (lookup_union_Some_l _ _ "title" (VStr "") Ht). reflexivity.
Qed.

Lemma createNote_empty_title_kept_witness :
  (<["title" := VStr ""]> ∅ : obj) !! "title" = Some (VStr "") ∧
  ∃ n st', createNote ticking (<["title" := VStr ""]> ∅) (mkState (Primary []) 0) = (Ok n, st') ∧
           get n "title" = VStr "".
Proof.
  split; [reflexivity|]. do 2 eexists. split; [reflexivity|].
  eapply (createNote_empty_title_kept ticking (mkState (Primary []) 0) (<["title" := VStr ""]> ∅));
    [reflexivity | reflexivity].
Defined.

(** Notes parsed from the blob are already in their JSON form. *)
Lemma parsed_notes_normal (ls : option blob) (l : list obj) (n : obj) :
  getNotesFromLocalStorage ls = Ok l -> n ∈ l -> json_obj n = n.
Proof.
  destruct ls as [[l0|s]|]; simpl.
  - intros H Hin. injection H as <-. apply list_elem_of_fmap in Hin as (b0 & -> & _).
    apply json_obj_idem.
  - destruct (String.eqb s ""); intros H; [|discriminate H].
    injection H as <-. intros Hin. apply elem_of_nil in Hin. contradiction.
  - intros H. injection H as <-. intros Hin. apply elem_of_nil in Hin. contradiction.
Qed.


(** With a clock that does not advance between creation and update, the
    new [updatedAt] equals [createdAt]: it is not later. *)
Example updateNote_same_instant :
  let '(r, st1) := createNote frozen ∅ (mkState (Primary []) 0) in
  match r with
  | Ok n =>
      let '(r2, _) := updateNote frozen (get n "id") (<["title" := VStr "Y"]> ∅) st1 in
      match r2 with
      | Ok m => get m "updatedAt" = get m "createdAt"
      | Err _ => False
      end
  | Err _ => False
  end.
Proof. vm_compute. reflexivity. Qed.



(** ** The [folder] index *)

Lemma list_filter_perm {A} (p : A -> bool) (l l' : list A) :
  l ≡ₚ l' -> List.filter p l ≡ₚ List.filter p l'.
Proof.
  induction 1 as [|x l l' _ IH|x y l|l l' l'' _ IH1 _ IH2]; simpl.
  - reflexivity.
  - destruct (p x); [apply perm_skip|]; exact IH.
  - destruct (p x), (p y); try reflexivity; apply perm_swap.
  - etrans; [exact IH1 | exact IH2].
Qed.

Lemma ix_insert_perm (e : key * obj) (ix : list (key * obj)) : ix_insert e ix ≡ₚ e :: ix.
Proof.
  induction ix as [|e' ix IH]; simpl; [reflexivity|].
  destruct (key_cmp e.1 e'.1); try reflexivity;
    (etrans; [apply perm_skip, IH | apply perm_swap]).
Qed.

Lemma folder_index_perm (db : idb) : folder_index db ≡ₚ index_entries db.
Proof.
  unfold folder_index.
  cut (∀ acc, fold_left (fun ix kv => match valid_key (get kv.2 "folder") with
                                      | Some ik => ix_insert (ik, kv.2) ix
                                      | None => ix
                                      end) db acc ≡ₚ index_entries db ++ acc).
  { intros H. rewrite H, app_nil_r. reflexivity. }
  induction db as [|[k n] db IH]; intros acc; simpl; [reflexivity|].
  unfold index_entries. simpl. fold (index_entries db).
  destruct (valid_key (get n "folder")) as [ik|]; simpl.
  - rewrite IH, ix_insert_perm. symmetry. apply Permutation_middle.
  - apply IH.
Qed.

Lemma index_entries_filter (db : idb) (f : string) :
  map snd (List.filter (fun e => key_same e.1 (KStr f)) (index_entries db))
  = filter (fun n => in_folder f n = true) (map snd db).
Proof.
  induction db as [|[k n] db IH]; [reflexivity|].
  unfold index_entries. simpl. fold (index_entries db).
  rewrite filter_cons.
  destruct (valid_key (get n "folder")) as [ik|] eqn:Hv; simpl.
  - destruct (key_same ik (KStr f)) eqn:Hs.
    + apply key_same_iff in Hs. subst ik. apply valid_key_str in Hv.
      rewrite decide_True; [|unfold in_folder; rewrite Hv; apply String.eqb_refl].
      simpl. f_equal. exact IH.
    + rewrite decide_False; [exact IH|].
      unfold in_folder. destruct (get n "folder") eqn:Hg; try discriminate.
      destruct (String.eqb s f) eqn:He; [|discriminate].
      apply String.eqb_eq in He. subst s. simpl in Hv. injection Hv as <-.
      rewrite (proj2 (key_same_iff _ _) eq_refl) in Hs. discriminate.
  - rewrite decide_False; [exact IH|].
    unfold in_folder. destruct (get n "folder"); simpl in Hv; discriminate.
Qed.

(** C8.  For every folder label [f] (a text), [getNotesByFolder(f)]
    resolves with the notes of [getAllNotes()] whose [folder] is [f], up to
    order, on both backends; it rejects exactly when [getAllNotes] does, with
    the same error (fallback backend, unreadable blob). *)
Theorem getNotesByFolder_filters (st : state) (f : string) :
  match read_all (st_backend st) with
  | Ok l => ∃ r, getNotesByFolder (VStr f) st = (Ok r, st) ∧
                 r ≡ₚ filter (fun n => in_folder f n = true) l
  | Err e => getNotesByFolder (VStr f) st = (Err e, st)
  end.
Proof.
  destruct st as [[db|ls] t]; unfold getNotesByFolder, getAllNotes; unfold_M; simpl.
  - eexists. split; [reflexivity|].
    rewrite <- index_entries_filter. apply Permutation_map, list_filter_perm, folder_index_perm.
  - destruct (getNotesFromLocalStorage ls) as [l|e]; [|reflexivity].
    eexists. split; [reflexivity|]. apply reflexive_eq.
    induction l as [|n l IH]; [reflexivity|]. simpl. rewrite filter_cons.
    assert (Hn : strict_eq (get n "folder") (VStr f) = in_folder f n)
      by (unfold in_folder; destruct (get n "folder"); reflexivity).
    rewrite Hn. destruct (in_folder f n).
    + rewrite decide_True by reflexivity. f_equal. exact IH.
    + rewrite decide_False by discriminate. exact IH.
Qed.

(** ** Search *)

Lemma some_tag_text (t : string) (tags : list val) :
  Forall (fun v => ∃ s, v = VStr s) tags ->
  some_tag t tags =
    Ok (existsb (fun tag => match tag with VStr s => includes (lower s) t | _ => false end) tags).
Proof.
  induction 1 as [|v tags [s ->] _ IH]; simpl; [reflexivity|].
  destruct (includes (lower s) t); [reflexivity | exact IH].
Qed.

Lemma search_match_text (q : string) (n : obj) :
  text_note n -> search_match (lower q) n = Ok (search_spec q n).
Proof.
  intros ([ti Hti] & [co Hco] & tags & Htg & Hall).
  unfold search_match, search_spec. rewrite Hti, Hco, Htg. simpl.
  destruct (includes (lower ti) (lower q)); [reflexivity|].
  destruct (includes (lower co) (lower q)); [reflexivity|].
  apply some_tag_text, Hall.
Qed.

Lemma filter_res_text (q : string) (l : list obj) :
  Forall text_note l ->
  filter_res (search_match (lower q)) l = Ok (List.filter (search_spec q) l).
Proof.
  induction 1 as [|n l Hn _ IH]; simpl; [reflexivity|].
  rewrite (search_match_text q n Hn), IH. reflexivity.
Qed.

(** C7, counterexample.  A note created with [title: null] is stored with
    that title; [searchNotes] then calls [toLowerCase] on [null], which
    throws, and the search rejects with a [TypeError] instead of resolving. *)
Lemma searchNotes_counterexample :
  ¬ (∀ (q : string) (st : state) (l : list obj),
       read_all (st_backend st) = Ok l ->
       searchNotes q st = (Ok (List.filter (search_spec q) l), st)).
Proof.
  intros H.
  set (st1 := (createNote frozen (<["title" := VNull]> ∅) (mkState (Primary []) 0)).2).
  set (l := match read_all (st_backend st1) with Ok l => l | Err _ => [] end).
  assert (E : read_all (st_backend st1) = Ok l) by (vm_compute; reflexivity).
  pose proof (H "note" st1 l E) as Hs. vm_compute in Hs. discriminate Hs.
Qed.

(** C7, amended.  When every stored note has a text [title], a text
    [content] and a sequence of text [tags] (as [createNote] produces them
    unless the caller overrides one of these fields with another kind of
    value), [searchNotes(q)] resolves, leaves the state unchanged, and returns
    in store order exactly the notes whose lowercased title, content or some
    tag contains the lowercased [q]; when none matches the result is empty. *)
Theorem searchNotes_text_notes (q : string) (st : state) (l : list obj) :
  read_all (st_backend st) = Ok l -> Forall text_note l ->
  searchNotes q st = (Ok (List.filter (search_spec q) l), st).
Proof.
  intros Hr Hall. destruct st as [b t].
  unfold searchNotes, getAllNotes; unfold_M; simpl in *.
  rewrite Hr. simpl. rewrite (filter_res_text q l Hall). reflexivity.
Qed.

Lemma searchNotes_text_notes_witness :
  let na : obj := <["id" := VStr "a"]> (<["title" := VStr "Groceries"]>
                  (<["content" := VStr "milk"]> (<["tags" := VArr [VStr "Home"]]> ∅))) in
  let nb : obj := <["id" := VStr "b"]> (<["title" := VStr "Work plan"]>
                  (<["content" := VStr ""]> (<["tags" := VArr []]> ∅))) in
  let st := mkState (Primary [(KStr "a", na); (KStr "b", nb)]) 0 in
  read_all (st_backend st) = Ok [na; nb] ∧ Forall text_note [na; nb] ∧
  List.filter (search_spec "HOME") [na; nb] = [na] ∧
  searchNotes "HOME" st = (Ok (List.filter (search_spec "HOME") [na; nb]), st).
Proof.
  intros na nb st.
  assert (Hr : read_all (st_backend st) = Ok [na; nb]) by reflexivity.
  assert (Ht : Forall text_note [na; nb]).
  { apply List.Forall_cons; [|apply List.Forall_cons; [|apply List.Forall_nil]];
      (split; [eexists; reflexivity|]); (split; [eexists; reflexivity|]);
      (eexists; split; [reflexivity|]).
    - apply List.Forall_cons; [eexists; reflexivity | apply List.Forall_nil].
    - apply List.Forall_nil. }
  split; [exact Hr|]. split; [exact Ht|]. split; [vm_compute; reflexivity|].
  apply searchNotes_text_notes; [exact Hr | exact Ht].
Defined.

(** ** Identifiers *)

Lemma pretty_N_go_no_us (x : N) (s : string) :
  no_us s = true -> no_us (pretty_N_go x s) = true.
Proof.
  revert s. induction (N.lt_wf_0 x) as [x _ IH]; intros s Hs.
  assert (x = 0 ∨ 0 < x)%N as [->|Hx] by lia; [rewrite pretty_N_go_0; exact Hs|].
  rewrite pretty_N_go_step by exact Hx. apply IH; [apply N.div_lt; lia|].
  simpl. rewrite Hs, andb_true_r.
  unfold pretty_N_char. repeat case_match; reflexivity.
Qed.

Lemma pretty_N_no_us (x : N) : no_us (pretty x) = true.
Proof.
  unfold pretty, pretty_N. case_decide; [reflexivity|]. apply pretty_N_go_no_us. reflexivity.
Qed.

Lemma split_at_us (s1 s2 r1 r2 : string) :
  no_us s1 = true -> no_us s2 = true ->
  s1 +:+ String "_" r1 = s2 +:+ String "_" r2 -> s1 = s2 ∧ r1 = r2.
Proof.
  revert s2. induction s1 as [|c s1 IH]; intros [|c' s2] H1 H2 E; simpl in *.
  - injection E as E. split; [reflexivity | exact E].
  - injection E as <- _. discriminate H2.
  - injection E as -> _. discriminate H1.
  - injection E as <- E. apply andb_prop in H1 as [_ H1]. apply andb_prop in H2 as [_ H2].
    destruct (IH s2 H1 H2 E) as [-> ->]. split; reflexivity.
Qed.

Lemma gen_id_inj (env : nat -> reading) (i j : nat) :
  gen_id env i = gen_id env j ->
  r_now (env i) = r_now (env j) ∧ r_rand (env (S i)) = r_rand (env (S j)).
Proof.
  unfold gen_id. simpl. intros E. injection E as E.
  apply split_at_us in E as [Hp Hr]; [|apply pretty_N_no_us..].
  split; [apply (inj pretty), Hp | exact Hr].
Qed.

Lemma createNote_id (env : nat -> reading) (st : state) (nd n : obj) (st' : state) :
  createNote env nd st = (Ok n, st') -> nd !! "id" = None ->
  get n "id" = VStr (gen_id env (st_tick st)).
Proof.
  intros H Hk. apply createNote_ok in H as [_ H]. specialize (H n eq_refl). subst n.
  unfold note_literal, get. rewrite lookup_union_r by exact Hk. simplify_map_eq. reflexivity.
Qed.

Lemma createSeq_ids_from (env : nat -> reading) (l : list obj) (s : state) :
  Forall (fun nd => nd !! "id" = None) l ->
  ∀ v, v ∈ returned_ids (createSeq env l s).1 ->
  ∃ i, st_tick s <= i ∧ v = VStr (gen_id env i).
Proof.
  intros Hl. revert s. induction Hl as [|nd l Hnd _ IH]; intros s v Hv; simpl in Hv.
  - apply elem_of_nil in Hv. contradiction.
  - destruct (createNote env nd s) as [r s1] eqn:Hc.
    destruct (createSeq env l s1) as [rs s2] eqn:Hs. simpl in Hv.
    pose proof (proj1 (createNote_ok env s nd r s1 Hc)) as Ht.
    assert (Htail : v ∈ returned_ids rs -> ∃ i, st_tick s <= i ∧ v = VStr (gen_id env i)).
    { intros Hin. destruct (IH s1 v) as (i & Hi & ->); [rewrite Hs; exact Hin|].
      exists i. split; [lia | reflexivity]. }
    destruct r as [n|e]; simpl in Hv; [|exact (Htail Hv)].
    apply elem_of_cons in Hv as [->|Hin]; [|exact (Htail Hin)].
    exists (st_tick s). split; [lia|]. exact (createNote_id env s nd n s1 Hc Hnd).
Qed.

Lemma createNote_unfold (env : nat -> reading) (b : backend) (t : nat) (nd : obj) :
  createNote env nd (mkState b t) =
  createNoteStore (note_literal nd (gen_id env t) (toISOString (r_now (env (S (S t)))))
                     (toISOString (r_now (env (S (S (S t))))))) (mkState b (S (S (S (S t))))).
Proof.
  unfold createNote, generateId, now_iso, date_now, math_random.
  unfold_M. simpl. fold (gen_id env t). reflexivity.
Qed.



(** X19.  For a sequence of [createNote] calls none of whose
    inputs sets [id], on either backend, the ids of the notes returned by
    the calls that resolve are pairwise distinct, provided no two
    [generateId] calls of the sequence read the same pair of [Date.now()]
    and [Math.random()] values (in the model: distinct ticks [i], [j] from
    the starting one never give equal clock readings together with equal
    random strings at [i + 1], [j + 1]). *)
Theorem createSeq_ids_distinct (env : nat -> reading) (l : list obj) (s : state) :
  Forall (fun nd => nd !! "id" = None) l ->
  (∀ i j, st_tick s <= i -> st_tick s <= j ->
          r_now (env i) = r_now (env j) -> r_rand (env (S i)) = r_rand (env (S j)) -> i = j) ->
  NoDup (returned_ids (createSeq env l s).1).
Proof.
  intros Hl. revert s. induction Hl as [|nd l Hnd Hl IH]; intros s Hinj; simpl.
  - constructor.
  - destruct (createNote env nd s) as [r s1] eqn:Hc.
    destruct (createSeq env l s1) as [rs s2] eqn:Hs. simpl.
    pose proof (proj1 (createNote_ok env s nd r s1 Hc)) as Ht.
    assert (Hrs : NoDup (returned_ids rs)).
    { replace rs with (createSeq env l s1).1 by (rewrite Hs; reflexivity).
      apply IH. intros i j Hi Hj. apply Hinj; lia. }
    destruct r as [n|e]; simpl; [|exact Hrs].
    apply NoDup_cons. split; [|exact Hrs].
    rewrite (createNote_id env s nd n s1 Hc Hnd). intros Hin.
    destruct (createSeq_ids_from env l s1 Hl (VStr (gen_id env (st_tick s))))
      as (i & Hi & Ei); [rewrite Hs; exact Hin|].
    assert (Eg : gen_id env (st_tick s) = gen_id env i) by congruence.
    apply gen_id_inj in Eg as [E1 E2].
    assert (st_tick s = i) by (apply Hinj; [lia | lia | exact E1 | exact E2]). lia.
Qed.

Lemma createSeq_ids_distinct_witness :
  Forall (fun nd : obj => nd !! "id" = None) [∅; <["title" := VStr "B"]> ∅] ∧
  NoDup (returned_ids (createSeq ticking [∅; <["title" := VStr "B"]> ∅]
                                 (mkState (Fallback None) 0)).1).
Proof.
  assert (Hl : Forall (fun nd : obj => nd !! "id" = None) [∅; <["title" := VStr "B"]> ∅])
    by (apply List.Forall_cons; [reflexivity|];
        apply List.Forall_cons; [reflexivity | apply List.Forall_nil]).
  split; [exact Hl|].
  apply createSeq_ids_distinct; [exact Hl|].
  intros i j _ _ E _. unfold ticking in E. simpl in E. lia.
Defined.

(** ** Export and import *)

(** A note that has every field of [createNote]'s literal is recreated as
    it is: the spread [...noteData] overrides each default. *)
Lemma note_literal_complete (n : obj) (id c u : string) :
  note_complete n -> note_literal n id c u = n.
Proof.
  intros Hc. apply map_eq. intros k. unfold note_literal.
  destruct (n !! k) as [v|] eqn:Hk; [apply lookup_union_Some_l; exact Hk|].
  rewrite lookup_union_r by exact Hk.
  assert (Hf : k ∉ note_fields).
  { intros Hin. destruct (Hc k Hin) as [v Hv]. congruence. }
  unfold note_fields in Hf. rewrite !not_elem_of_cons in Hf.
  destruct Hf as (H1 & H2 & H3 & H4 & H5 & H6 & H7 & _).
  rewrite !lookup_insert_ne by congruence. apply lookup_empty.
Qed.

Lemma createAll_fallback (env : nat -> reading) (l acc : list obj) (t : nat) :
  (∀ x, x ∈ acc -> json_obj x = x) ->
  (∀ x, x ∈ l -> json_obj x = x ∧ note_complete x) ->
  ∃ t', createAll env l (mkState (Fallback (Some (BJson acc))) t)
        = (Ok tt, mkState (Fallback (Some (BJson (acc ++ l)))) t').
Proof.
  revert acc t. induction l as [|n l IH]; intros acc t Hacc Hl.
  - exists t. rewrite app_nil_r. reflexivity.
  - destruct (Hl n (list_elem_of_here n l)) as [Hjn Hcn].
    simpl. unfold_M. rewrite createNote_unfold, note_literal_complete by exact Hcn.
    unfold createNoteStore. unfold_M. simpl.
    assert (Hm : map json_obj acc = acc).
    { clear -Hacc. induction acc as [|x acc IHa]; [reflexivity|]. simpl.
      rewrite (Hacc x (list_elem_of_here x acc)), IHa; [reflexivity|].
      intros y Hy. apply Hacc, list_elem_of_further, Hy. }
    rewrite Hm.
    destruct (IH (acc ++ [n])%list (S (S (S (S t))))) as [t' Ht'].
    + intros x Hx. apply elem_of_app in Hx as [Hx|Hx]; [apply Hacc, Hx|].
      apply list_elem_of_singleton in Hx. subst x. exact Hjn.
    + intros x Hx. apply Hl, list_elem_of_further, Hx.
    + exists t'. rewrite Ht', <- app_assoc. reflexivity.
Qed.

Lemma createAll_primary (env : nat -> reading) (db acc : idb) (t : nat) :
  NoDup (db.*1 ++ acc.*1) ->
  (∀ k n, (k, n) ∈ db -> valid_key (get n "id") = Some k ∧ note_complete n) ->
  ∃ acc' t', createAll env (map snd db) (mkState (Primary acc) t)
             = (Ok tt, mkState (Primary acc') t') ∧ acc' ≡ₚ (db ++ acc)%list.
Proof.
  revert acc t. induction db as [|[k n] db IH]; intros acc t Hnd Hdb.
  - exists acc, t. split; reflexivity.
  - destruct (Hdb k n (list_elem_of_here _ _)) as [Hk Hcn].
    simpl. unfold_M. rewrite createNote_unfold, note_literal_complete by exact Hcn.
    unfold createNoteStore, idb_add. unfold_M. simpl. rewrite Hk.
    simpl in Hnd. apply NoDup_cons in Hnd as [Hnin Hnd].
    assert (Hget : idb_get k acc = None).
    { apply idb_get_None. intros k' n' Hin ->. apply Hnin, elem_of_app. right.
      apply list_elem_of_fmap. exists (k, n'). split; [reflexivity | exact Hin]. }
    rewrite Hget. simpl.
    pose proof (idb_put_absent k n acc Hget) as Hp.
    destruct (IH (idb_put k n acc) (S (S (S (S t))))) as (acc' & t' & E & Hacc').
    + rewrite Hp. simpl. apply NoDup_app in Hnd as (Hd1 & Hdis & Hd2).
      apply NoDup_app. split; [exact Hd1|]. split.
      * intros x Hx1 Hx2. apply elem_of_cons in Hx2 as [->|Hx2];
          [apply Hnin, elem_of_app; left; exact Hx1 | exact (Hdis x Hx1 Hx2)].
      * apply NoDup_cons. split; [|exact Hd2]. intros Hx. apply Hnin, elem_of_app. right. exact Hx.
    + intros k' n' Hin. apply Hdb, list_elem_of_further, Hin.
    + exists acc', t'. split; [exact E|]. rewrite Hacc', Hp. symmetry. apply Permutation_middle.
Qed.

(** C3, counterexample.  On the fallback backend a note created with
    [title: undefined] is stored through [JSON.stringify], which drops the
    property; the exported note has no [title], and re-creating it on import
    adds the default ['Untitled Note'], so the notes read back differ from
    those exported. *)
Lemma roundtrip_counterexample :
  ¬ (∀ (env : nat -> reading) (st : state) (l : list obj),
       read_all (st_backend st) = Ok l ->
       ∃ bnd st1 st2 st3 l',
         exportData env st = (Ok bnd, st1) ∧ clearAllData st1 = (Ok true, st2) ∧
         importData env bnd st2 = (Ok (length l), st3) ∧
         read_all (st_backend st3) = Ok l' ∧ l' ≡ₚ l).
Proof.
  intros H.
  set (st0 := (createNote ticking (<["title" := VUndef]> ∅) (mkState (Fallback None) 0)).2).
  set (l := match read_all (st_backend st0) with Ok l => l | Err _ => [] end).
  assert (El : read_all (st_backend st0) = Ok l) by (vm_compute; reflexivity).
  destruct (H ticking st0 l El) as (bnd & st1 & st2 & st3 & l' & E1 & E2 & E3 & E4 & Hp).
  vm_compute in E1. injection E1 as <- <-.
  vm_compute in E2. injection E2 as <-.
  vm_compute in E3. injection E3 as <-.
  vm_compute in E4. injection E4 as <-.
  vm_compute in l. subst l. apply Permutation_length_1 in Hp.
  apply (f_equal (fun o : obj => o !! "title")) in Hp. vm_compute in Hp. discriminate Hp.
Qed.

(** C3, amended.  On a well-formed store whose notes can be read and all
    carry the seven fields [createNote] writes (id, title, content, tags,
    folder, createdAt, updatedAt), exporting, clearing and importing the
    exported bundle resolves with the number of notes, and afterwards
    [getAllNotes] returns the same notes, field for field, up to order. *)
Theorem export_clear_import_roundtrip (env : nat -> reading) (st : state) (l : list obj) :
  backend_wf (st_backend st) -> read_all (st_backend st) = Ok l -> Forall note_complete l ->
  ∃ bnd st1 st2 st3 l',
    exportData env st = (Ok bnd, st1) ∧ clearAllData st1 = (Ok true, st2) ∧
    importData env bnd st2 = (Ok (length l), st3) ∧
    read_all (st_backend st3) = Ok l' ∧ l' ≡ₚ l.
Proof.
  intros Hwf Hr Hc. destruct st as [[db|ls] t]; simpl in Hwf, Hr.
  - injection Hr as <-. destruct Hwf as [Hnd Hk].
    destruct (createAll_primary env db [] (S t)) as (acc' & t' & E & Hp).
    + rewrite app_nil_r. exact Hnd.
    + intros k n Hin. split; [apply Hk, Hin|].
      rewrite Forall_forall in Hc. apply Hc, list_elem_of_In.
      apply list_elem_of_In in Hin. apply (in_map snd) in Hin. exact Hin.
    + do 5 eexists. split; [reflexivity|]. split; [reflexivity|].
      split; [unfold importData, clearAllData; unfold_M; simpl; rewrite E; reflexivity|].
      split; [reflexivity|]. simpl. rewrite Hp, app_nil_r. reflexivity.
  - apply read_all_fallback in Hr.
    destruct (createAll_fallback env l [] (S t)) as (t' & E).
    + intros x Hx. apply elem_of_nil in Hx. contradiction.
    + intros x Hx. split; [exact (parsed_notes_normal ls l x Hr Hx)|].
      rewrite Forall_forall in Hc. apply Hc, Hx.
    + do 5 eexists.
      split; [unfold exportData, getAllNotes, now_iso, date_now; unfold_M; simpl;
              rewrite Hr; reflexivity|].
      split; [reflexivity|].
      split; [unfold importData, clearAllData; unfold_M; simpl; rewrite E; reflexivity|].
      split; [reflexivity|]. simpl. apply reflexive_eq.
      rewrite <- (map_id l) at 2. apply map_ext_in. intros x Hx.
      apply (parsed_notes_normal ls l x Hr), list_elem_of_In, Hx.
Qed.

Lemma export_clear_import_roundtrip_witness :
  let mk (id title : string) : obj :=
    <["id" := VStr id]> (<["title" := VStr title]> (<["content" := VStr ""]>
    (<["tags" := VArr []]> (<["folder" := VStr "default"]>
    (<["createdAt" := VStr "2023-11-14T22:13:20.000Z"]>
    (<["updatedAt" := VStr "2023-11-14T22:13:20.000Z"]> ∅)))))) in
  let st := mkState (Primary [(KStr "a", mk "a" "A"); (KStr "b", mk "b" "B")]) 0 in
  backend_wf (st_backend st) ∧
  read_all (st_backend st) = Ok [mk "a" "A"; mk "b" "B"] ∧
  Forall note_complete [mk "a" "A"; mk "b" "B"] ∧
  ∃ bnd st1 st2 st3 l',
    exportData ticking st = (Ok bnd, st1) ∧ clearAllData st1 = (Ok true, st2) ∧
    importData ticking bnd st2 = (Ok (length [mk "a" "A"; mk "b" "B"]), st3) ∧
    read_all (st_backend st3) = Ok l' ∧ l' ≡ₚ [mk "a" "A"; mk "b" "B"].
Proof.
  intros mk st.
  assert (Hwf : backend_wf (st_backend st)).
  { split.
    - apply NoDup_cons. split; [|apply NoDup_singleton].
      intros Hx. apply list_elem_of_singleton in Hx. discriminate Hx.
    - intros k n Hin.
      apply elem_of_cons in Hin as [Hin|Hin]; [|apply list_elem_of_singleton in Hin];
        injection Hin as -> ->; reflexivity. }
  assert (Hr : read_all (st_backend st) = Ok [mk "a" "A"; mk "b" "B"]) by reflexivity.
  assert (Hc : Forall note_complete [mk "a" "A"; mk "b" "B"]).
  { apply List.Forall_cons; [|apply List.Forall_cons; [|apply List.Forall_nil]];
      intros k Hk; unfold note_fields in Hk;
      repeat (apply elem_of_cons in Hk as [->|Hk]; [eexists; reflexivity|]);
      apply elem_of_nil in Hk; contradiction. }
  split; [exact Hwf|]. split; [exact Hr|]. split; [exact Hc|].
  apply export_clear_import_roundtrip; [exact Hwf | exact Hr | exact Hc].
Defined.

(** * Further properties of the storage layer *)

(** ** Lookups after [put] and [delete] *)

Lemma key_same_false (a b : key) : a ≠ b -> key_same a b = false.
Proof.
  intros H. destruct (key_same a b) eqn:E; [|reflexivity]. apply key_same_iff in E. contradiction.
Qed.

Lemma idb_get_put_ne (k k' : key) (n : obj) (db : idb) :
  k' ≠ k -> idb_get k' (idb_put k n db) = idb_get k' db.
Proof.
  intros Hne. unfold idb_get. induction db as [|[k0 n0] db IH]; simpl.
  - rewrite (key_same_false _ _ Hne). reflexivity.
  - destruct (key_cmp k k0) eqn:E; simpl.
    + apply key_cmp_eq in E. subst k0. rewrite (key_same_false _ _ Hne). reflexivity.
    + rewrite (key_same_false _ _ Hne). reflexivity.
    + destruct (key_same k' k0); [reflexivity | exact IH].
Qed.

Lemma idb_get_delete (k k' : key) (db : idb) :
  idb_get k' (idb_delete k db) = if key_same k' k then None else idb_get k' db.
Proof.
  unfold idb_get, idb_delete. induction db as [|[k0 n0] db IH]; simpl.
  - destruct (key_same k' k); reflexivity.
  - destruct (key_same k k0) eqn:E; simpl.
    + apply key_same_iff in E. subst k0. rewrite IH.
      destruct (key_same k' k); reflexivity.
    + destruct (key_same k' k0) eqn:E'; simpl; [|exact IH].
      apply key_same_iff in E'. subst k0.
      destruct (key_same k' k) eqn:E2; [|reflexivity].
      apply key_same_iff in E2. subst k'. rewrite (proj2 (key_same_iff k k) eq_refl) in E.
      discriminate.
Qed.

(** ** Lookups in the parsed localStorage array *)

Lemma map_json_obj_normal (l : list obj) :
  (∀ x, x ∈ l -> json_obj x = x) -> map json_obj l = l.
Proof.
  intros H. rewrite <- (map_id l) at 2. apply map_ext_in. intros x Hx.
  apply H, list_elem_of_In, Hx.
Qed.

Lemma parsed_map_json (ls : option blob) (l : list obj) :
  getNotesFromLocalStorage ls = Ok l -> map json_obj l = l.
Proof.
  intros H. apply map_json_obj_normal. intros x Hx. exact (parsed_notes_normal ls l x H Hx).
Qed.

Lemma map_insert_list {A B} (f : A -> B) (l : list A) (i : nat) (x : A) :
  map f (<[i := x]> l) = <[i := f x]> (map f l).
Proof.
  revert i. induction l as [|a l IH]; intros [|i]; simpl; try reflexivity.
  f_equal. apply IH.
Qed.

Lemma find_insert_other {A} (p : A -> bool) (l : list A) (i : nat) (x y : A) :
  l !! i = Some x -> p x = false -> p y = false ->
  List.find p (<[i := y]> l) = List.find p l.
Proof.
  revert i. induction l as [|a l IH]; intros [|i] Hi Hx Hy; simpl in *; try discriminate.
  - injection Hi as ->. rewrite Hx, Hy. reflexivity.
  - destruct (p a); [reflexivity|]. apply (IH i); assumption.
Qed.

Lemma find_filter_implied {A} (p q : A -> bool) (l : list A) :
  (∀ x, p x = true -> q x = true) -> List.find p (List.filter q l) = List.find p l.
Proof.
  intros H. induction l as [|a l IH]; simpl; [reflexivity|].
  destruct (q a) eqn:Eq; simpl.
  - destruct (p a); [reflexivity | exact IH].
  - destruct (p a) eqn:Ep; [|exact IH]. apply H in Ep. congruence.
Qed.

Lemma find_none_filter {A} (p : A -> bool) (l : list A) :
  List.find p (List.filter (fun x => negb (p x)) l) = None.
Proof.
  induction l as [|a l IH]; simpl; [reflexivity|].
  destruct (p a) eqn:E; simpl; [exact IH|]. rewrite E. exact IH.
Qed.

Lemma map_json_filter (q : obj -> bool) (l : list obj) :
  map json_obj l = l -> map json_obj (List.filter q l) = List.filter q l.
Proof.
  intros H. apply map_json_obj_normal. intros x Hx.
  apply list_elem_of_In, filter_In in Hx as [Hx _].
  assert (Hm : In (json_obj x) (map json_obj l)) by (apply in_map, Hx).
  rewrite H in Hm. clear -Hx H.
  induction l as [|a l IH]; simpl in *; [contradiction|].
  injection H as Ha Hl. destruct Hx as [->|Hx]; [exact Ha | apply IH; assumption].
Qed.

(** ** What [createNote] does to the store *)

Lemma createNote_store (env : nat -> reading) (b : backend) (t : nat) (nd n : obj) (st' : state) :
  createNote env nd (mkState b t) = (Ok n, st') ->
  n = note_literal nd (gen_id env t) (toISOString (r_now (env (S (S t)))))
        (toISOString (r_now (env (S (S (S t)))))) ∧
  match b with
  | Primary db => ∃ k, valid_key (get n "id") = Some k ∧ idb_get k db = None ∧
                       st_backend st' = Primary (idb_put k n db)
  | Fallback ls => ∃ l, getNotesFromLocalStorage ls = Ok l ∧
                        st_backend st' = Fallback (Some (BJson (l ++ [n])))
  end.
Proof.
  rewrite createNote_unfold. set (note := note_literal nd _ _ _).
  unfold createNoteStore, idb_add. unfold_M. simpl.
  destruct b as [db|ls].
  - destruct (valid_key (get note "id")) as [k|] eqn:Hk; [|discriminate].
    destruct (idb_get k db) eqn:Hg; [discriminate|]. simpl.
    intros H. injection H as <- <-. split; [reflexivity|]. exists k. auto.
  - destruct (getNotesFromLocalStorage ls) as [l|e] eqn:Hl; [|discriminate].
    intros H. injection H as <- <-. split; [reflexivity|]. exists l. auto.
Qed.

Lemma createNote_err_store (env : nat -> reading) (st : state) (nd : obj) (e : err) (st' : state) :
  createNote env nd st = (Err e, st') -> st_backend st' = st_backend st.
Proof.
  destruct st as [b t]. rewrite createNote_unfold. set (note := note_literal nd _ _ _).
  unfold createNoteStore, idb_add. unfold_M. simpl.
  destruct b as [db|ls].
  - destruct (valid_key (get note "id")) as [k|]; [|intros H; injection H as _ <-; reflexivity].
    destruct (idb_get k db); [intros H; injection H as _ <-; reflexivity | discriminate].
  - destruct (getNotesFromLocalStorage ls); [discriminate|].
    intros H. injection H as _ <-. reflexivity.
Qed.


(** The ids returned by a sequence of [createNote] calls on IndexedDB are
    keys the store did not hold before the sequence, and they are distinct:
    each [add] that resolved keeps its key in the store for the calls after
    it. *)
Lemma createSeq_primary_fresh (env : nat -> reading) (l : list obj) :
  ∀ db t,
  NoDup (returned_ids (createSeq env l (mkState (Primary db) t)).1) ∧
  ∀ v, v ∈ returned_ids (createSeq env l (mkState (Primary db) t)).1 ->
       ∃ k, valid_key v = Some k ∧ idb_get k db = None.
Proof.
  induction l as [|nd l IH]; intros db t; simpl.
  - split; [constructor|]. intros v Hv. apply elem_of_nil in Hv. contradiction.
  - destruct (createNote env nd (mkState (Primary db) t)) as [r [b1 t1]] eqn:Hc.
    destruct (createSeq env l (mkState b1 t1)) as [rs s2] eqn:Hs. simpl.
    destruct r as [n|e].
    + apply createNote_store in Hc as [_ (k & Hk & Hg & Hb)]. simpl in Hb. subst b1.
      destruct (IH (idb_put k n db) t1) as [Hnd Hfr]. rewrite Hs in Hnd, Hfr. simpl in Hnd, Hfr.
      split.
      * apply NoDup_cons. split; [|exact Hnd]. intros Hin.
        destruct (Hfr _ Hin) as (k' & Hk' & Hg'). rewrite Hk in Hk'. injection Hk' as <-.
        rewrite idb_get_put_eq in Hg'. discriminate Hg'.
      * intros v Hv. apply elem_of_cons in Hv as [->|Hv]; [exists k; split; assumption|].
        destruct (Hfr v Hv) as (k' & Hk' & Hg'). exists k'. split; [exact Hk'|].
        destruct (key_same k' k) eqn:E.
        -- apply key_same_iff in E. subst k'. rewrite idb_get_put_eq in Hg'. discriminate Hg'.
        -- rewrite idb_get_put_ne in Hg'; [exact Hg'|].
           intros ->. rewrite (proj2 (key_same_iff k k) eq_refl) in E. discriminate E.
    + apply createNote_err_store in Hc. simpl in Hc. subst b1.
      destruct (IH db t1) as [Hnd Hfr]. rewrite Hs in Hnd, Hfr. exact (conj Hnd Hfr).
Qed.

Lemma find_app_skip {A} (p : A -> bool) (l1 l2 : list A) :
  (∀ x, In x l1 -> p x = false) -> List.find p (l1 ++ l2) = List.find p l2.
Proof.
  induction l1 as [|a l1 IH]; intros H; simpl; [reflexivity|].
  rewrite (H a (or_introl eq_refl)). apply IH. intros x Hx. apply H. right. exact Hx.
Qed.

(** X1.  A note created without a caller [id] can be read back: when no
    stored note has the generated id, [getNote] on the id of the returned
    note resolves with that very note on IndexedDB, and with its JSON copy
    (the note with its [undefined]-valued properties dropped) on the
    localStorage fallback. *)
Theorem createNote_then_getNote (env : nat -> reading) (st : state) (nd n : obj) (st' : state) :
  nd !! "id" = None -> ¬ id_present (st_backend st) (gen_id env (st_tick st)) ->
  createNote env nd st = (Ok n, st') ->
  get n "id" = VStr (gen_id env (st_tick st)) ∧
  read_note (st_backend st') (get n "id")
  = Ok (Some (match st_backend st with Primary _ => n | Fallback _ => json_obj n end)).
Proof.
  intros Hnd Hfresh Hc.
  assert (Hid : get n "id" = VStr (gen_id env (st_tick st))) by exact (createNote_id env st nd n st' Hc Hnd).
  split; [exact Hid|]. rewrite Hid.
  destruct st as [b t]. simpl in *. apply createNote_store in Hc as [_ Hb].
  destruct b as [db|ls].
  - destruct Hb as (k & Hk & _ & ->). rewrite Hid in Hk. simpl in Hk. injection Hk as <-.
    simpl. rewrite idb_get_put_eq. reflexivity.
  - destruct Hb as (l & Hl & ->). simpl.
    rewrite map_app, (parsed_map_json ls l Hl).
    rewrite find_app_skip; simpl.
    + rewrite strict_eq_json, Hid. simpl. rewrite String.eqb_refl. reflexivity.
    + intros x Hx. destruct (strict_eq (get x "id") _) eqn:E; [|reflexivity].
      apply strict_eq_str in E. exfalso. apply Hfresh. exists l, x.
      split; [exact Hl|]. split; [apply list_elem_of_In, Hx | exact E].
Qed.

Lemma createNote_then_getNote_witness :
  (∅ : obj) !! "id" = None ∧
  ¬ id_present (st_backend (mkState (Fallback None) 0)) (gen_id ticking 0) ∧
  ∃ n st', createNote ticking ∅ (mkState (Fallback None) 0) = (Ok n, st') ∧
    get n "id" = VStr (gen_id ticking 0) ∧
    read_note (st_backend st') (get n "id") = Ok (Some (json_obj n)).
Proof.
  assert (Hf : ¬ id_present (st_backend (mkState (Fallback None) 0)) (gen_id ticking 0)).
  { intros (l & x & Hl & Hx & _). simpl in Hl. injection Hl as <-. apply elem_of_nil in Hx. exact Hx. }
  split; [reflexivity|]. split; [exact Hf|].
  do 2 eexists. split; [reflexivity|].
  exact (createNote_then_getNote ticking (mkState (Fallback None) 0) ∅ _ _ eq_refl Hf eq_refl).
Defined.

(** X2.  A resolved [createNote] adds exactly one note and keeps every
    other: [getAllNotes] afterwards returns the notes it returned before
    plus the created note (its JSON copy on the localStorage fallback), up
    to order. *)
Theorem createNote_adds_one (env : nat -> reading) (st : state) (nd n : obj) (st' : state) (l : list obj) :
  createNote env nd st = (Ok n, st') -> read_all (st_backend st) = Ok l ->
  ∃ l' m, read_all (st_backend st') = Ok l' ∧ l' ≡ₚ m :: l ∧ json_obj m = json_obj n.
Proof.
  intros Hc Hr. destruct st as [b t]. apply createNote_store in Hc as [_ Hb].
  destruct b as [db|ls]; simpl in *.
  - destruct Hb as (k & _ & Hg & ->). injection Hr as <-. simpl.
    eexists _, n. split; [reflexivity|]. split; [|reflexivity].
    rewrite (idb_put_absent k n db Hg). reflexivity.
  - destruct Hb as (l0 & Hl & ->). apply read_all_fallback in Hr. rewrite Hr in Hl. injection Hl as <-.
    simpl. rewrite map_app, (parsed_map_json ls l Hr).
    eexists _, (json_obj n). split; [reflexivity|]. split; [|apply json_obj_idem].
    simpl. rewrite <- Permutation_cons_append. reflexivity.
Qed.

Lemma createNote_adds_one_witness :
  let st := mkState (Fallback (Some (BJson [<["id" := VStr "a"]> ∅]))) 0 in
  read_all (st_backend st) = Ok [<["id" := VStr "a"]> ∅] ∧
  ∃ n st', createNote ticking ∅ st = (Ok n, st') ∧
  ∃ l' m, read_all (st_backend st') = Ok l' ∧ l' ≡ₚ m :: [<["id" := VStr "a"]> ∅] ∧
          json_obj m = json_obj n.
Proof.
  intros st. assert (Hr : read_all (st_backend st) = Ok [<["id" := VStr "a"]> ∅]) by reflexivity.
  split; [exact Hr|]. do 2 eexists. split; [reflexivity|].
  eapply (createNote_adds_one ticking st ∅); [reflexivity | exact Hr].
Defined.

(** ** Rejections *)

Lemma updateNote_err_store (env : nat -> reading) (st : state) (id : val) (updates : obj)
    (e : err) (st' : state) :
  updateNote env id updates st = (Err e, st') -> st_backend st' = st_backend st.
Proof.
  destruct st as [b t]. unfold updateNote, getNote, now_iso, date_now, updateNoteStore.
  unfold_M. simpl.
  destruct (read_note b id) as [[x|]|err];
    [|intros H; injection H as _ <-; reflexivity | intros H; injection H as _ <-; reflexivity].
  simpl. destruct b as [db|ls].
  - destruct (valid_key _); [discriminate | intros H; injection H as _ <-; reflexivity].
  - simpl. destruct (getNotesFromLocalStorage ls) as [l|err];
      [|intros H; injection H as _ <-; reflexivity].
    destruct (list_find _ l) as [[i y]|]; [discriminate | intros H; injection H as _ <-; reflexivity].
Qed.

Lemma deleteNote_err_store (st : state) (id : val) (e : err) (st' : state) :
  deleteNote id st = (Err e, st') -> st_backend st' = st_backend st.
Proof.
  destruct st as [b t]. unfold deleteNote. unfold_M. simpl.
  destruct b as [db|ls].
  - destruct (valid_key id); [discriminate | intros H; injection H as _ <-; reflexivity].
  - destruct (getNotesFromLocalStorage ls); [discriminate | intros H; injection H as _ <-; reflexivity].
Qed.

(** X3.  [createNote], [updateNote] and [deleteNote] are all or nothing:
    when one rejects, whatever the reason, the store (the IndexedDB records
    or the localStorage item) is as it was before the call. *)
Theorem rejected_writes_keep_store (env : nat -> reading) (st : state) :
  (∀ nd e st', createNote env nd st = (Err e, st') -> st_backend st' = st_backend st) ∧
  (∀ id updates e st', updateNote env id updates st = (Err e, st') -> st_backend st' = st_backend st) ∧
  (∀ id e st', deleteNote id st = (Err e, st') -> st_backend st' = st_backend st).
Proof.
  split; [|split].
  - intros nd e st'. apply createNote_err_store.
  - intros id updates e st'. apply updateNote_err_store.
  - intros id e st'. apply deleteNote_err_store.
Qed.

Lemma idb_get_in (k : key) (n : obj) (db : idb) : (k, n) ∈ db -> ∃ m, idb_get k db = Some m.
Proof.
  intros Hin. destruct (idb_get k db) as [m|] eqn:E; [exists m; reflexivity|].
  exfalso. exact (proj1 (idb_get_None k db) E k n Hin eq_refl).
Qed.

(** X4.  On IndexedDB, [store.add] never overwrites: creating a note with
    a caller [id] that is already stored rejects with 'Failed to create
    note' and leaves the records as they were. *)
Theorem createNote_primary_taken_id (env : nat -> reading) (db : idb) (t : nat) (nd : obj) (s : string) :
  nd !! "id" = Some (VStr s) -> id_present (Primary db) s ->
  createNote env nd (mkState (Primary db) t)
  = (Err (Error "Failed to create note"), mkState (Primary db) (S (S (S (S t))))).
Proof.
  intros Hid [m Hin]. rewrite createNote_unfold.
  unfold createNoteStore, idb_add. unfold_M. simpl.
  unfold get at 1. unfold note_literal. rewrite (lookup_union_Some_l _ _ _ _ Hid). simpl.
  destruct (idb_get_in _ _ _ Hin) as [m' ->]. reflexivity.
Qed.

Lemma createNote_primary_taken_id_witness :
  let db := [(KStr "a", (<["id" := VStr "a"]> ∅ : obj))] in
  (<["id" := VStr "a"]> ∅ : obj) !! "id" = Some (VStr "a") ∧ id_present (Primary db) "a" ∧
  createNote ticking (<["id" := VStr "a"]> ∅) (mkState (Primary db) 0)
  = (Err (Error "Failed to create note"), mkState (Primary db) 4).
Proof.
  intros db. assert (Hp : id_present (Primary db) "a") by (eexists; left).
  split; [reflexivity|]. split; [exact Hp|].
  apply (createNote_primary_taken_id ticking db 0 _ "a"); [reflexivity | exact Hp].
Defined.

(** X5.  On the localStorage fallback, when the stored item cannot be
    parsed, every write rejects and the item is kept as it is:
    [createNote] with 'Failed to create note in localStorage', [updateNote]
    with 'Failed to get note from localStorage' (its lookup fails first)
    and [deleteNote] with 'Failed to delete note from localStorage'. *)
Theorem writes_on_unreadable_item (env : nat -> reading) (ls : option blob) (t : nat) (e0 : err) :
  getNotesFromLocalStorage ls = Err e0 ->
  (∀ nd, ∃ t', createNote env nd (mkState (Fallback ls) t)
               = (Err (Error "Failed to create note in localStorage"), mkState (Fallback ls) t')) ∧
  (∀ id updates, updateNote env id updates (mkState (Fallback ls) t)
               = (Err (Error "Failed to get note from localStorage"), mkState (Fallback ls) t)) ∧
  (∀ id, deleteNote id (mkState (Fallback ls) t)
         = (Err (Error "Failed to delete note from localStorage"), mkState (Fallback ls) t)).
Proof.
  intros He. split; [|split].
  - intros nd. eexists. rewrite createNote_unfold. unfold createNoteStore. unfold_M. simpl.
    rewrite He. reflexivity.
  - intros id updates. unfold updateNote, getNote. unfold_M. simpl. rewrite He. reflexivity.
  - intros id. unfold deleteNote. unfold_M. simpl. rewrite He. reflexivity.
Qed.

Lemma writes_on_unreadable_item_witness :
  getNotesFromLocalStorage (Some (BText "invalid json")) = Err SyntaxError ∧
  ∃ t', createNote ticking ∅ (mkState (Fallback (Some (BText "invalid json"))) 0)
        = (Err (Error "Failed to create note in localStorage"),
           mkState (Fallback (Some (BText "invalid json"))) t').
Proof.
  split; [reflexivity|].
  exact (proj1 (writes_on_unreadable_item ticking (Some (BText "invalid json")) 0 SyntaxError eq_refl) ∅).
Defined.

(** ** What [updateNote] does to the other notes *)

Lemma merged_id (t : string) (updates e : obj) :
  get (<["updatedAt" := VStr t]> (updates ∪ e)) "id" =
  match updates !! "id" with Some v => v | None => get e "id" end.
Proof.
  unfold get. rewrite lookup_insert_ne by discriminate.
  destruct (updates !! "id") as [v|] eqn:E.
  - rewrite (lookup_union_Some_l _ _ _ _ E). reflexivity.
  - rewrite lookup_union_r by exact E. reflexivity.
Qed.

Lemma strict_eq_str_str (a b : string) : strict_eq (VStr a) (VStr b) = String.eqb a b.
Proof. reflexivity. Qed.

(** X6.  An update that does not change [id] touches no other note: on a
    well-formed store, after [updateNote(id, updates)] resolves, [getNote]
    of every other id returns what it returned before. *)
Theorem updateNote_other_notes (env : nat -> reading) (st : state) (id : string)
    (updates n : obj) (st' : state) :
  backend_wf (st_backend st) -> updates !! "id" = None ->
  updateNote env (VStr id) updates st = (Ok n, st') ->
  ∀ s, s ≠ id -> read_note (st_backend st') (VStr s) = read_note (st_backend st) (VStr s).
Proof.
  intros Hwf Hu Hc s Hs.
  apply updateNote_ok in Hc as (e & Hr & -> & _ & Hb).
  assert (Hid : get (<["updatedAt" := VStr (toISOString (r_now (env (st_tick st))))]> (updates ∪ e)) "id"
                = get e "id") by (rewrite merged_id, Hu; reflexivity).
  destruct st as [[db|ls] t]; simpl in *.
  - destruct Hb as (k & Hk & ->). destruct Hwf as [_ Hwf].
    injection Hr as Hr. apply idb_get_Some, Hwf in Hr.
    rewrite Hid, Hr in Hk. injection Hk as <-. simpl.
    f_equal. apply idb_get_put_ne. intros E. injection E as E. contradiction.
  - destruct Hb as (l & i & x & Hl & Hf & ->). rewrite Hl in Hr. injection Hr as Hr.
    apply find_some in Hr as [_ He]. apply strict_eq_str in He.
    rewrite Hid, He in Hf. simpl. rewrite Hl.
    rewrite map_insert_list, (parsed_map_json ls l Hl). f_equal.
    apply list_find_Some in Hf as (Hi & Hx & _). apply strict_eq_str in Hx.
    apply find_insert_other with x; [exact Hi | |].
    + rewrite Hx, strict_eq_str_str. apply String.eqb_neq. intros E. apply Hs. symmetry. exact E.
    + rewrite strict_eq_json, Hid, He, strict_eq_str_str. apply String.eqb_neq.
      intros E. apply Hs. symmetry. exact E.
Qed.

Lemma updateNote_other_notes_witness :
  let na : obj := <["id" := VStr "a"]> ∅ in
  let nb : obj := <["id" := VStr "b"]> (<["title" := VStr "B"]> ∅) in
  let st := mkState (Fallback (Some (BJson [na; nb]))) 0 in
  backend_wf (st_backend st) ∧ (<["title" := VStr "A"]> ∅ : obj) !! "id" = None ∧
  ∃ n st', updateNote ticking (VStr "a") (<["title" := VStr "A"]> ∅) st = (Ok n, st') ∧
  ("b" ≠ "a" -> read_note (st_backend st') (VStr "b") = read_note (st_backend st) (VStr "b")).
Proof.
  intros na nb st. split; [exact I|]. split; [reflexivity|].
  do 2 eexists. split; [reflexivity|].
  eapply (updateNote_other_notes ticking st "a" (<["title" := VStr "A"]> ∅));
    [exact I | reflexivity | reflexivity].
Defined.

(** X7.  On IndexedDB an update whose [updates] carry a different [id]
    does not rename the note: the record is [put] under the new key, so the
    old record stays as it was and a second record, the merged note, is
    found under the new id. *)
Theorem updateNote_new_id_primary (env : nat -> reading) (db : idb) (t : nat) (id s2 : string)
    (updates n : obj) (st' : state) :
  updates !! "id" = Some (VStr s2) -> s2 ≠ id ->
  updateNote env (VStr id) updates (mkState (Primary db) t) = (Ok n, st') ->
  read_note (st_backend st') (VStr id) = read_note (Primary db) (VStr id) ∧
  read_note (st_backend st') (VStr s2) = Ok (Some n) ∧
  ∃ e, read_note (Primary db) (VStr id) = Ok (Some e).
Proof.
  intros Hu Hs Hc. apply updateNote_ok in Hc as (e & Hr & -> & _ & Hb). simpl in Hb.
  destruct Hb as (k & Hk & ->). rewrite merged_id, Hu in Hk. simpl in Hk. injection Hk as <-.
  split; [|split; [|exists e; exact Hr]]; simpl.
  - f_equal. apply idb_get_put_ne. intros E. injection E as E. apply Hs. symmetry. exact E.
  - rewrite idb_get_put_eq. reflexivity.
Qed.

Lemma updateNote_new_id_primary_witness :
  let db := [(KStr "a", (<["id" := VStr "a"]> ∅ : obj))] in
  (<["id" := VStr "z"]> ∅ : obj) !! "id" = Some (VStr "z") ∧ "z" ≠ "a" ∧
  ∃ n st', updateNote ticking (VStr "a") (<["id" := VStr "z"]> ∅) (mkState (Primary db) 0) = (Ok n, st') ∧
  read_note (st_backend st') (VStr "a") = read_note (Primary db) (VStr "a") ∧
  read_note (st_backend st') (VStr "z") = Ok (Some n) ∧
  ∃ e, read_note (Primary db) (VStr "a") = Ok (Some e).
Proof.
  intros db. split; [reflexivity|]. split; [discriminate|].
  do 2 eexists. split; [reflexivity|].
  eapply (updateNote_new_id_primary ticking db 0 "a" "z" (<["id" := VStr "z"]> ∅));
    [reflexivity | discriminate | reflexivity].
Defined.

(** X8.  On the localStorage fallback the same update is looked up by the
    new [id]: when no stored note has that id, [updateNote] rejects with
    'Failed to update note in localStorage' and the item is unchanged,
    although the note to update was found. *)
Theorem updateNote_new_id_fallback (env : nat -> reading) (ls : option blob) (t : nat) (id s2 : string)
    (updates e : obj) :
  updates !! "id" = Some (VStr s2) -> ¬ id_present (Fallback ls) s2 ->
  read_note (Fallback ls) (VStr id) = Ok (Some e) ->
  updateNote env (VStr id) updates (mkState (Fallback ls) t)
  = (Err (Error "Failed to update note in localStorage"), mkState (Fallback ls) (S t)).
Proof.
  intros Hu Hfresh Hr. unfold updateNote, getNote, now_iso, date_now, updateNoteStore.
  unfold_M. simpl. simpl in Hr. rewrite Hr. simpl.
  destruct (getNotesFromLocalStorage ls) as [l|err] eqn:Hl; [|discriminate Hr].
  rewrite merged_id, Hu.
  replace (list_find _ l) with (@None (nat * obj)); [reflexivity|].
  symmetry. apply list_find_None. apply Forall_forall. intros x Hx Heq.
  apply strict_eq_str in Heq. apply Hfresh. exists l, x. auto.
Qed.

Lemma updateNote_new_id_fallback_witness :
  let ls := Some (BJson [(<["id" := VStr "a"]> ∅ : obj)]) in
  (<["id" := VStr "z"]> ∅ : obj) !! "id" = Some (VStr "z") ∧ ¬ id_present (Fallback ls) "z" ∧
  read_note (Fallback ls) (VStr "a") = Ok (Some (<["id" := VStr "a"]> ∅)) ∧
  updateNote ticking (VStr "a") (<["id" := VStr "z"]> ∅) (mkState (Fallback ls) 0)
  = (Err (Error "Failed to update note in localStorage"), mkState (Fallback ls) 1).
Proof.
  intros ls.
  assert (Hf : ¬ id_present (Fallback ls) "z").
  { intros (l & x & Hl & Hx & Hid). simpl in Hl. injection Hl as <-.
    apply list_elem_of_singleton in Hx. subst x. vm_compute in Hid. discriminate Hid. }
  assert (Hr : read_note (Fallback ls) (VStr "a") = Ok (Some (<["id" := VStr "a"]> ∅))) by reflexivity.
  split; [reflexivity|]. split; [exact Hf|]. split; [exact Hr|].
  apply (updateNote_new_id_fallback ticking ls 0 "a" "z" (<["id" := VStr "z"]> ∅) (<["id" := VStr "a"]> ∅)); [reflexivity | exact Hf | exact Hr].
Defined.

(** ** Deleting and clearing *)

(** What a resolved [deleteNote] does: it resolved with [true], the id is
    gone and every other id reads as before. *)
Lemma deleteNote_ok_effect (st : state) (id : string) (r : bool) (st' : state) :
  deleteNote (VStr id) st = (Ok r, st') ->
  r = true ∧ read_note (st_backend st') (VStr id) = Ok None ∧
  ∀ s, s ≠ id -> read_note (st_backend st') (VStr s) = read_note (st_backend st) (VStr s).
Proof.
  destruct st as [[db|ls] t]; unfold deleteNote; unfold_M; simpl.
  - intros H. injection H as <- <-. simpl. split; [reflexivity|]. split.
    + rewrite idb_get_delete, (proj2 (key_same_iff _ _) eq_refl). reflexivity.
    + intros s Hs. rewrite idb_get_delete, key_same_false; [reflexivity|].
      intros E. injection E as E. contradiction.
  - destruct (getNotesFromLocalStorage ls) as [l|e] eqn:Hl; [|discriminate].
    intros H. injection H as <- <-. simpl. split; [reflexivity|].
    rewrite (map_json_filter _ l (parsed_map_json ls l Hl)). split.
    + f_equal. apply find_none_filter.
    + intros s Hs. f_equal. apply find_filter_implied. intros x Hx.
      apply strict_eq_str in Hx. rewrite Hx, strict_eq_str_str. simpl.
      destruct (String.eqb s id) eqn:E; [|reflexivity]. apply String.eqb_eq in E. contradiction.
Qed.

(** X9.  On a store that can be read, [deleteNote(id)] removes exactly that
    note: it resolves [true], [getNote(id)] afterwards resolves
    [undefined], and [getNote] of every other id returns what it returned
    before. *)
Theorem deleteNote_removes (st : state) (id : string) :
  readable (st_backend st) ->
  ∃ st', deleteNote (VStr id) st = (Ok true, st') ∧
  read_note (st_backend st') (VStr id) = Ok None ∧
  ∀ s, s ≠ id -> read_note (st_backend st') (VStr s) = read_note (st_backend st) (VStr s).
Proof.
  intros [l Hr].
  destruct (deleteNote (VStr id) st) as [[r|e] st'] eqn:Hd.
  - destruct (deleteNote_ok_effect st id r st' Hd) as (-> & H1 & H2).
    exists st'. split; [reflexivity|]. split; assumption.
  - exfalso. revert Hd. destruct st as [[db|ls] t]; unfold deleteNote; unfold_M; simpl in *.
    + discriminate.
    + destruct (getNotesFromLocalStorage ls); [discriminate | discriminate Hr].
Qed.

Lemma deleteNote_removes_witness :
  let st := mkState (Fallback (Some (BJson [(<["id" := VStr "a"]> ∅ : obj); <["id" := VStr "b"]> ∅]))) 0 in
  readable (st_backend st) ∧
  ∃ st', deleteNote (VStr "a") st = (Ok true, st') ∧
  read_note (st_backend st') (VStr "a") = Ok None ∧
  ∀ s, s ≠ "a" -> read_note (st_backend st') (VStr s) = read_note (st_backend st) (VStr s).
Proof.
  intros st.
  assert (Hr : readable (st_backend st)) by (eexists; reflexivity).
  split; [exact Hr|]. exact (deleteNote_removes st "a" Hr).
Defined.

(** X10.  Deleting an id that is not stored is not an error: on a
    readable store [deleteNote] resolves [true] and [getAllNotes] returns
    the same notes afterwards. *)
Theorem deleteNote_absent (st : state) (id : string) :
  readable (st_backend st) -> ¬ id_present (st_backend st) id ->
  ∃ st', deleteNote (VStr id) st = (Ok true, st') ∧ read_all (st_backend st') = read_all (st_backend st).
Proof.
  intros [l Hr] Hnp. destruct st as [[db|ls] t]; unfold deleteNote; unfold_M; simpl in *.
  - eexists. split; [reflexivity|]. simpl. f_equal. f_equal. unfold idb_delete.
    clear Hr. induction db as [|[k n] db IH]; simpl; [reflexivity|].
    rewrite key_same_false.
    + simpl. f_equal. apply IH. intros [m Hm]. apply Hnp. exists m. right. exact Hm.
    + intros <-. apply Hnp. exists n. left.
  - destruct (getNotesFromLocalStorage ls) as [l0|e] eqn:Hl; [|discriminate].
    eexists. split; [reflexivity|]. simpl.
    assert (Hf : List.filter (fun n => negb (strict_eq (get n "id") (VStr id))) l0 = l0).
    { clear Hr. assert (Hall : ∀ x, x ∈ l0 -> strict_eq (get x "id") (VStr id) = false).
      { intros x Hx. destruct (strict_eq _ _) eqn:E; [|reflexivity].
        apply strict_eq_str in E. exfalso. apply Hnp. exists l0, x. auto. }
      clear Hl Hnp. induction l0 as [|x l0 IH]; simpl; [reflexivity|].
      rewrite (Hall x (list_elem_of_here _ _)). simpl. f_equal.
      apply IH. intros y Hy. apply Hall, list_elem_of_further, Hy. }
    rewrite Hf, (parsed_map_json ls l0 Hl). reflexivity.
Qed.

Lemma deleteNote_absent_witness :
  let st := mkState (Primary [(KStr "a", (<["id" := VStr "a"]> ∅ : obj))]) 0 in
  readable (st_backend st) ∧ ¬ id_present (st_backend st) "z" ∧
  ∃ st', deleteNote (VStr "z") st = (Ok true, st') ∧ read_all (st_backend st') = read_all (st_backend st).
Proof.
  intros st.
  assert (Hr : readable (st_backend st)) by (eexists; reflexivity).
  assert (Hn : ¬ id_present (st_backend st) "z").
  { intros [m Hm]. apply list_elem_of_singleton in Hm. discriminate Hm. }
  split; [exact Hr|]. split; [exact Hn|].
  exact (deleteNote_absent st "z" Hr Hn).
Defined.

(** X11.  [clearAllData] always resolves [true] and [getAllNotes] then
    resolves with no notes, on both backends; on the fallback this also
    replaces an item that could not be parsed. *)
Theorem clearAllData_empties (st : state) :
  ∃ st', clearAllData st = (Ok true, st') ∧ getAllNotes st' = (Ok [], st') ∧
         st_tick st' = st_tick st.
Proof.
  destruct st as [[db|ls] t]; unfold clearAllData; unfold_M; simpl;
    eexists; (split; [reflexivity|]); split; reflexivity.
Qed.

(** ** Folder lookups without a folder *)

Lemma index_entries_all (db : idb) :
  map snd (index_entries db) =
  List.filter (fun n => match valid_key (get n "folder") with Some _ => true | None => false end)
              (map snd db).
Proof.
  induction db as [|[k n] db IH]; [reflexivity|].
  unfold index_entries. simpl. fold (index_entries db).
  destruct (valid_key (get n "folder")); simpl; [f_equal|]; exact IH.
Qed.

(** X13.  Called with [undefined] as folder, [getNotesByFolder] gives
    different answers on the two backends: on IndexedDB
    [index('folder').getAll(undefined)] returns every note whose [folder]
    is a valid key, in folder order; on the localStorage fallback the
    filter [n.folder === undefined] returns only the notes without a
    folder. *)
Theorem getNotesByFolder_undefined (st : state) :
  match st_backend st with
  | Primary db =>
      ∃ r, getNotesByFolder VUndef st = (Ok r, st) ∧
           r ≡ₚ List.filter (fun n => match valid_key (get n "folder") with
                                      | Some _ => true | None => false end) (map snd db)
  | Fallback ls =>
      match read_all (Fallback ls) with
      | Ok l => getNotesByFolder VUndef st = (Ok (List.filter (fun n => is_undef (get n "folder")) l), st)
      | Err e => getNotesByFolder VUndef st = (Err e, st)
      end
  end.
Proof.
  destruct st as [[db|ls] t]; unfold getNotesByFolder, getAllNotes; unfold_M; simpl.
  - eexists. split; [reflexivity|].
    rewrite <- index_entries_all. apply Permutation_map, folder_index_perm.
  - destruct (getNotesFromLocalStorage ls) as [l|e]; [|reflexivity].
    reflexivity.
Qed.

(** ** Search with an empty query *)

Lemma includes_empty (s : string) : includes s "" = true.
Proof. destruct s; reflexivity. Qed.

(** X14.  The empty query matches everything: when every stored note has
    a text title, a text content and a sequence of text tags,
    [searchNotes('')] resolves with all the notes, in store order. *)
Theorem searchNotes_empty_query (st : state) (l : list obj) :
  read_all (st_backend st) = Ok l -> Forall text_note l -> searchNotes "" st = (Ok l, st).
Proof.
  intros Hr Hall. destruct st as [b t].
  unfold searchNotes, getAllNotes; unfold_M; simpl in *. rewrite Hr. simpl.
  pose proof (filter_res_text "" l Hall) as Hf. cbn [lower] in Hf. rewrite Hf. do 2 f_equal.
  clear Hr Hf. induction Hall as [|n l ([ti Hti] & [co Hco] & tags & Htg & _) _ IH]; [reflexivity|].
  simpl. unfold search_spec at 1. rewrite Hti, Hco, Htg. simpl.
  rewrite includes_empty. simpl. f_equal. exact IH.
Qed.

Lemma searchNotes_empty_query_witness :
  let na : obj := <["title" := VStr "A"]> (<["content" := VStr "x"]> (<["tags" := VArr []]> ∅)) in
  let st := mkState (Fallback (Some (BJson [na]))) 0 in
  read_all (st_backend st) = Ok [na] ∧ Forall text_note [na] ∧ searchNotes "" st = (Ok [na], st).
Proof.
  intros na st.
  assert (Hr : read_all (st_backend st) = Ok [na]) by reflexivity.
  assert (Ht : Forall text_note [na]).
  { apply List.Forall_cons; [|apply List.Forall_nil].
    split; [eexists; reflexivity|]. split; [eexists; reflexivity|].
    eexists. split; [reflexivity | apply List.Forall_nil]. }
  split; [exact Hr|]. split; [exact Ht|]. exact (searchNotes_empty_query st [na] Hr Ht).
Defined.

(** ** Initialising the fallback *)

(** X15.  Where [Storage] exists, [initLocalStorage] succeeds, leaves an
    item in place, and never changes what [getNotesFromLocalStorage] reads
    from it: a missing or empty item becomes ['[]'] (still no notes) and an
    item that does not parse is kept as it is.  Without [Storage] it throws
    'Neither IndexedDB nor localStorage is supported'. *)
Theorem initLocalStorage_keeps_reads (ls : option blob) :
  (∃ ls', initLocalStorage true ls = Ok (Some ls') ∧
          getNotesFromLocalStorage (Some ls') = getNotesFromLocalStorage ls) ∧
  initLocalStorage false ls = Err (Error "Neither IndexedDB nor localStorage is supported").
Proof.
  split; [|reflexivity].
  destruct ls as [[l|s]|]; simpl.
  - eexists. split; reflexivity.
  - unfold initLocalStorage. simpl. destruct (String.eqb s "") eqn:E.
    + eexists. split; [reflexivity|]. apply String.eqb_eq in E. subst s. reflexivity.
    + eexists. split; [reflexivity|]. simpl. rewrite E. reflexivity.
  - eexists. split; reflexivity.
Qed.

(** ** A failing import on IndexedDB *)

(** ** Imports that stop half way *)

Lemma idb_put_elem (k : key) (n : obj) (db : idb) (k' : key) (n' : obj) :
  (k', n') ∈ idb_put k n db -> (k', n') ∈ db ∨ (k', n') = (k, n).
Proof.
  induction db as [|[k0 n0] db IH]; simpl.
  - intros H. apply list_elem_of_singleton in H. right. exact H.
  - destruct (key_cmp k k0); intros H; apply elem_of_cons in H as [H|H].
    + right. exact H.
    + left. apply list_elem_of_further, H.
    + right. exact H.
    + left. exact H.
    + left. rewrite H. apply list_elem_of_here.
    + destruct (IH H) as [H'|H']; [left; apply list_elem_of_further, H' | right; exact H'].
Qed.

(** One [createNote] on IndexedDB keeps every key it found and adds at most
    the record of the note it built. *)
Lemma createNote_primary_step (env : nat -> reading) (nd : obj) (acc : idb) (t : nat)
    (r : result obj) (st' : state) :
  createNote env nd (mkState (Primary acc) t) = (r, st') ->
  ∃ acc', st_backend st' = Primary acc' ∧
    (∀ k, idb_get k acc ≠ None -> idb_get k acc' ≠ None) ∧
    (∀ k n, (k, n) ∈ acc' -> (k, n) ∈ acc ∨ ∃ i c u, n = note_literal nd i c u).
Proof.
  destruct r as [n|e]; intros Hc.
  - apply createNote_store in Hc as [Hn (k & _ & Hg & Hb)].
    exists (idb_put k n acc). split; [exact Hb|]. split.
    + intros k' Hk'. destruct (key_same k' k) eqn:E.
      * apply key_same_iff in E. subst k'. rewrite idb_get_put_eq. discriminate.
      * rewrite idb_get_put_ne; [exact Hk'|].
        intros ->. rewrite (proj2 (key_same_iff k k) eq_refl) in E. discriminate E.
    + intros k' n' Hin. apply idb_put_elem in Hin as [Hin|Hin]; [left; exact Hin|].
      injection Hin as -> ->. right. do 3 eexists. exact Hn.
  - apply createNote_err_store in Hc. exists acc. split; [exact Hc|].
    split; [intros k Hk; exact Hk | intros k n Hin; left; exact Hin].
Qed.

(** After [createAll] on IndexedDB, resolved or not, every record is one
    the store held before or a note built from an element of the list. *)
Lemma createAll_primary_from (env : nat -> reading) (l : list obj) :
  ∀ acc t r st', createAll env l (mkState (Primary acc) t) = (r, st') ->
  ∃ acc', st_backend st' = Primary acc' ∧
    ∀ k n, (k, n) ∈ acc' -> (k, n) ∈ acc ∨ ∃ nd i c u, nd ∈ l ∧ n = note_literal nd i c u.
Proof.
  induction l as [|nd l IH]; intros acc t r st' H.
  - injection H as _ <-. exists acc. split; [reflexivity|]. intros k n Hin. left. exact Hin.
  - simpl in H. unfold_M.
    destruct (createNote env nd (mkState (Primary acc) t)) as [[n|e] [b1 t1]] eqn:Hc;
      destruct (createNote_primary_step env nd acc t _ _ Hc) as (acc1 & Hb1 & _ & Hin1);
      simpl in Hb1; subst b1.
    + destruct (IH acc1 t1 r st' H) as (acc' & Hb & Hin). exists acc'. split; [exact Hb|].
      intros k m Hm. destruct (Hin k m Hm) as [Hm'|(nd' & i & c & u & Hnd & ->)].
      * destruct (Hin1 k m Hm') as [H'|(i & c & u & ->)]; [left; exact H'|].
        right. exists nd, i, c, u. split; [apply list_elem_of_here | reflexivity].
      * right. exists nd', i, c, u. split; [apply list_elem_of_further, Hnd | reflexivity].
    + injection H as _ <-. exists acc1. split; [reflexivity|].
      intros k m Hm. destruct (Hin1 k m Hm) as [H'|(i & c & u & ->)]; [left; exact H'|].
      right. exists nd, i, c, u. split; [apply list_elem_of_here | reflexivity].
Qed.

(** Once the key [KStr s] is taken, a later note with [id] [s] makes
    [createAll] on IndexedDB reject. *)
Lemma createAll_primary_taken (env : nat -> reading) (s : string) (nd2 : obj) (post : list obj) :
  nd2 !! "id" = Some (VStr s) ->
  ∀ mid acc t, idb_get (KStr s) acc ≠ None ->
  ∃ e st', createAll env (mid ++ nd2 :: post) (mkState (Primary acc) t) = (Err e, st').
Proof.
  intros Hid mid. induction mid as [|m mid IH]; intros acc t Hk; simpl; unfold_M.
  - rewrite createNote_unfold. unfold createNoteStore, idb_add. unfold_M. simpl.
    assert (Hg : get (note_literal nd2 (gen_id env t) (toISOString (r_now (env (S (S t)))))
                        (toISOString (r_now (env (S (S (S t))))))) "id" = VStr s).
    { unfold get, note_literal. rewrite (lookup_union_Some_l _ _ _ _ Hid). reflexivity. }
    rewrite Hg. simpl. destruct (idb_get (KStr s) acc) as [x|]; [|contradiction].
    do 2 eexists. reflexivity.
  - destruct (createNote env m (mkState (Primary acc) t)) as [[n|e] [b1 t1]] eqn:Hc;
      destruct (createNote_primary_step env m acc t _ _ Hc) as (acc1 & Hb1 & Hkeep & _);
      simpl in Hb1; subst b1.
    + exact (IH acc1 t1 (Hkeep _ Hk)).
    + do 2 eexists. reflexivity.
Qed.

Lemma createAll_primary_dup (env : nat -> reading) (s : string) (nd1 nd2 : obj)
    (mid post : list obj) :
  nd1 !! "id" = Some (VStr s) -> nd2 !! "id" = Some (VStr s) ->
  ∀ pre acc t,
  ∃ e st', createAll env (pre ++ nd1 :: mid ++ nd2 :: post) (mkState (Primary acc) t) = (Err e, st').
Proof.
  intros H1 H2 pre. induction pre as [|p pre IH]; intros acc t; simpl; unfold_M.
  - destruct (createNote env nd1 (mkState (Primary acc) t)) as [[n|e] [b1 t1]] eqn:Hc;
      [|do 2 eexists; reflexivity].
    apply createNote_store in Hc as [Hn (k & Hk & _ & Hb)]. simpl in Hb. subst b1.
    assert (Hg : get n "id" = VStr s).
    { rewrite Hn. unfold get, note_literal. rewrite (lookup_union_Some_l _ _ _ _ H1). reflexivity. }
    rewrite Hg in Hk. simpl in Hk. injection Hk as <-.
    apply (createAll_primary_taken env s nd2 post H2 mid). rewrite idb_get_put_eq. discriminate.
  - destruct (createNote env p (mkState (Primary acc) t)) as [[n|e] [b1 t1]] eqn:Hc;
      destruct (createNote_primary_step env p acc t _ _ Hc) as (acc1 & Hb1 & _ & _);
      simpl in Hb1; subst b1.
    + exact (IH acc1 t1).
    + do 2 eexists. reflexivity.
Qed.

(** X16.  On IndexedDB [importData] is not atomic: it clears the store
    before creating the notes one by one, so when two notes of the bundle
    carry the same text [id], wherever they stand, the [add] of the second
    (or an earlier failing one) rejects and the import rejects; the store
    is then left holding only notes created from the bundle, and the notes
    stored before the import are gone. *)
Theorem importData_primary_duplicate (env : nat -> reading) (db : idb) (t : nat) (v d : val)
    (pre : list obj) (nd1 : obj) (mid : list obj) (nd2 : obj) (post : list obj) (s : string) :
  nd1 !! "id" = Some (VStr s) -> nd2 !! "id" = Some (VStr s) ->
  ∃ e st', importData env (mkBundle v d (Some (BNotes (pre ++ nd1 :: mid ++ nd2 :: post)%list)))
             (mkState (Primary db) t) = (Err e, st') ∧
    ∃ db', st_backend st' = Primary db' ∧
      ∀ k n, (k, n) ∈ db' ->
        ∃ nd i c u, nd ∈ (pre ++ nd1 :: mid ++ nd2 :: post)%list ∧ n = note_literal nd i c u.
Proof.
  intros H1 H2.
  set (l := (pre ++ nd1 :: mid ++ nd2 :: post)%list).
  destruct (createAll_primary_dup env s nd1 nd2 mid post H1 H2 pre [] t) as (e & st' & Hc).
  fold l in Hc.
  destruct (createAll_primary_from env l [] t _ _ Hc) as (db' & Hb & Hin).
  exists e, st'. split.
  - unfold importData, clearAllData. unfold_M. simpl. unfold_M. rewrite Hc. reflexivity.
  - exists db'. split; [exact Hb|]. intros k n Hkn.
    destruct (Hin k n Hkn) as [H|H]; [apply elem_of_nil in H; contradiction | exact H].
Qed.

Lemma importData_primary_duplicate_witness :
  (<["id" := VStr "x"]> ∅ : obj) !! "id" = Some (VStr "x") ∧
  (<["title" := VStr "C"]> (<["id" := VStr "x"]> ∅) : obj) !! "id" = Some (VStr "x") ∧
  ∃ e st', importData ticking
             (mkBundle (VNum 1) VUndef
                (Some (BNotes ([] ++ <["id" := VStr "x"]> ∅ ::
                               [<["title" := VStr "B"]> ∅] ++
                               <["title" := VStr "C"]> (<["id" := VStr "x"]> ∅) :: [])%list)))
             (mkState (Primary [(KStr "a", (<["id" := VStr "a"]> ∅ : obj))]) 0) = (Err e, st') ∧
    ∃ db', st_backend st' = Primary db' ∧
      ∀ k n, (k, n) ∈ db' ->
        ∃ nd i c u, nd ∈ ([] ++ <["id" := VStr "x"]> ∅ :: [<["title" := VStr "B"]> ∅] ++
                          <["title" := VStr "C"]> (<["id" := VStr "x"]> ∅) :: [])%list ∧
                    n = note_literal nd i c u.
Proof.
  split; [reflexivity|]. split; [reflexivity|].
  exact (importData_primary_duplicate ticking [(KStr "a", (<["id" := VStr "a"]> ∅ : obj))] 0
           (VNum 1) VUndef [] (<["id" := VStr "x"]> ∅) [<["title" := VStr "B"]> ∅]
           (<["title" := VStr "C"]> (<["id" := VStr "x"]> ∅)) [] "x" eq_refl eq_refl).
Defined.

(** X20.  On IndexedDB the notes returned by the [createNote] calls of a
    sequence that resolve have pairwise distinct ids, whatever the inputs
    and the clock and random readings: [store.add] rejects an [id] already
    stored, so a call that would repeat one rejects instead. *)
Theorem createSeq_ids_distinct_primary (env : nat -> reading) (l : list obj) (db : idb) (t : nat) :
  NoDup (returned_ids (createSeq env l (mkState (Primary db) t)).1).
Proof. exact (proj1 (createSeq_primary_fresh env l db t)). Qed.
